(** * moonworm: the function-call crawler and its pickle-file store

    A shallow embedding of [moonworm/crawler/function_call_crawler.py]:
    the [ContractFunctionCall] dataclass, the [EthereumStateProvider]
    interface with its web3 implementation, the [PickleFileState] store
    and the [FunctionCallCrawler] scan loop.

    Python objects mutated in place ([self.state], [self.cache_size], the
    file behind [self.pickle_file]) are threaded explicitly: a computation
    takes the store object and the file system and returns them together
    with either a value or the exception it raised. *)

From Stdlib Require Import ZArith List Lia Sorted DecimalString DecimalNat.
From stdpp Require Import base option list gmap strings.

Set Warnings "-register-all".
Open Scope Z_scope.

(** ** Python values and exceptions *)

(** The values a decoded argument ([Any] in the source) can take. *)
Inductive pyval : Type :=
  | PyInt (z : Z)
  | PyStr (s : string)
  | PyBool (b : bool)
  | PyBytes (bs : list Byte.byte)
  | PyList (items : list pyval)
  | PyDict (entries : list (string * pyval)).

(** A [Dict[str, Any]]: keys in insertion order. *)
Definition pydict : Type := list (string * pyval).

(** The exceptions that can travel through the crawler. [DecodeError] is
    what [decode_function_input] raises, [TransportError] what a chain read
    raises, [StorageError] a failed [open]/[pickle.dump], and
    [UnpicklingError] a failed [pickle.load]. *)
Inductive exn : Type :=
  | DecodeError
  | TransportError
  | NotFoundError
  | StorageError
  | UnpicklingError.

Inductive result (A : Type) : Type :=
  | Ok (a : A)
  | Raise (e : exn).
Arguments Ok {A} a.
Arguments Raise {A} e.

(** ** The data model *)

(** [@dataclass class ContractFunctionCall]. *)
Record ContractFunctionCall : Type := {
  block_number : Z;
  block_timestamp : Z;
  transaction_hash : string;
  contract_address : string;
  caller_address : string;
  function_name : string;
  function_args : pydict;
}.

(** [dataclasses.asdict]: one entry per field, in declaration order. *)
Definition asdict (c : ContractFunctionCall) : pydict :=
  [ ("block_number"%string, PyInt (block_number c));
    ("block_timestamp"%string, PyInt (block_timestamp c));
    ("transaction_hash"%string, PyStr (transaction_hash c));
    ("contract_address"%string, PyStr (contract_address c));
    ("caller_address"%string, PyStr (caller_address c));
    ("function_name"%string, PyStr (function_name c));
    ("function_args"%string, PyDict (function_args c)) ].

(** A transaction as the crawler reads it: the keys ["block_number"],
    ["hash"], ["to"], ["from"] and ["data"] of the dictionary. *)
Record transaction : Type := {
  tx_block_number : Z;
  tx_hash : string;
  tx_to : string;
  tx_from : string;
  tx_data : string;
}.

(** The dictionary held in [PickleFileState.state]:
    [{"last_crawled_block": ..., "calls": [...]}]. *)
Record crawl_state : Type := {
  last_crawled_block : Z;
  calls : list pydict;
}.

(** [class PickleFileState]: its instance attributes. *)
Record PickleFileState : Type := {
  state : crawl_state;
  pickle_file : string;
  state_file : string;
  batch_size : Z;
  cache_size : Z;
}.

(** ** The file system *)

(** What the next [open(path, "wb")] / [pickle.dump] will do: succeed, fail
    at [open] (the file is left alone), or fail while writing after
    [written] bytes reached the truncated file. *)
Inductive io_fault : Type :=
  | NoFault
  | OpenFails
  | WriteFails (written : nat).

Inductive io_event : Type :=
  | EvWrite (path : string) (content : list Byte.byte)
  | EvWriteFailed (path : string).

(** The files, the outcomes of the coming writes (none listed: they
    succeed), and the trace of the writes attempted so far, oldest first. *)
Record world : Type := {
  files : gmap string (list Byte.byte);
  faults : list io_fault;
  wlog : list io_event;
}.

Definition next_fault (w : world) : io_fault :=
  match faults w with
  | [] => NoFault
  | f :: _ => f
  end.

(** [with open(path, "wb") as ofp: ofp.write(content)]. *)
Definition write_file (path : string) (content : list Byte.byte) (w : world)
  : result unit * world :=
  match next_fault w with
  | NoFault =>
      (Ok tt, {| files := <[path := content]> (files w);
                 faults := tail (faults w);
                 wlog := wlog w ++ [EvWrite path content] |})
  | OpenFails =>
      (Raise StorageError, {| files := files w;
                              faults := tail (faults w);
                              wlog := wlog w ++ [EvWriteFailed path] |})
  | WriteFails n =>
      (Raise StorageError, {| files := <[path := take n content]> (files w);
                              faults := tail (faults w);
                              wlog := wlog w ++ [EvWriteFailed path] |})
  end.

(** ** The monad of the crawler: store object, file system, exceptions *)

Definition M (A : Type) : Type :=
  PickleFileState * world -> result A * (PickleFileState * world).

Definition ret {A} (a : A) : M A := fun s => (Ok a, s).

Definition bind {A B} (m : M A) (k : A -> M B) : M B :=
  fun s =>
    match m s with
    | (Ok a, s') => k a s'
    | (Raise e, s') => (Raise e, s')
    end.

Definition lift {A} (r : result A) : M A := fun s => (r, s).

Notation "'let*' x ':=' m 'in' k" := (bind m (fun x => k))
  (at level 10, x name, m at level 100, k at level 200).
Notation "m ';;' k" := (bind m (fun _ => k))
  (at level 100, k at level 200, right associativity).

(** [for x in xs: body(x)]. *)
Fixpoint for_each {A} (xs : list A) (body : A -> M unit) : M unit :=
  match xs with
  | [] => ret tt
  | x :: rest => body x ;; for_each rest body
  end.

(** [range(lo, hi)]. *)
Definition py_range (lo hi : Z) : list Z :=
  map (fun i => lo + Z.of_nat i) (seq 0 (Z.to_nat (hi - lo))).

Section Store.

(** [pickle.dump] and [pickle.load] on the state dictionary. *)
Variable dump : crawl_state -> list Byte.byte.
Variable load : list Byte.byte -> option crawl_state.

Definition initial_state : crawl_state :=
  {| last_crawled_block := -1; calls := [] |}.

(** [PickleFileState.__init__]. *)
Definition PickleFileState_init (pickle_file : string) (batch_size : Z)
    (w : world) : result PickleFileState * world :=
  let new st := {| state := st; pickle_file := pickle_file;
                   state_file := pickle_file; batch_size := batch_size;
                   cache_size := 0 |} in
  match files w !! pickle_file with
  | None =>
      match write_file pickle_file (dump initial_state) w with
      | (Ok _, w') => (Ok (new initial_state), w')
      | (Raise e, w') => (Raise e, w')
      end
  | Some content =>
      match load content with
      | Some st => (Ok (new st), w)
      | None => (Raise UnpicklingError, w)
      end
  end.

(** The default of the [batch_size] argument. *)
Definition default_batch_size : Z := 100.

Definition get_last_crawled_block (self : PickleFileState) : Z :=
  last_crawled_block (state self).

(** [PickleFileState.flush]. *)
Definition flush : M unit :=
  fun '(self, w) =>
    match write_file (pickle_file self) (dump (state self)) w with
    | (Ok _, w') =>
        (Ok tt, ({| state := state self; pickle_file := pickle_file self;
                    state_file := state_file self;
                    batch_size := batch_size self; cache_size := 0 |}, w'))
    | (Raise e, w') => (Raise e, (self, w'))
    end.

(** [PickleFileState.register_call]. *)
Definition register_call (function_call : ContractFunctionCall) : M unit :=
  fun '(self, w) =>
    let self1 :=
      {| state := {| last_crawled_block := block_number function_call;
                     calls := calls (state self) ++ [asdict function_call] |};
         pickle_file := pickle_file self;
         state_file := state_file self;
         batch_size := batch_size self;
         cache_size := cache_size self + 1 |} in
    if cache_size self1 =? batch_size self1
    then flush (self1, w)
    else (Ok tt, (self1, w)).

(** The store with another state dictionary and pending count. *)
Definition with_state (self : PickleFileState) (st : crawl_state) (n : Z)
  : PickleFileState :=
  {| state := st; pickle_file := pickle_file self;
     state_file := state_file self; batch_size := batch_size self;
     cache_size := n |}.

(** The store after the first three statements of [register_call]. *)
Definition appended (self : PickleFileState) (c : ContractFunctionCall)
  : PickleFileState :=
  with_state self
    {| last_crawled_block := block_number c;
       calls := calls (state self) ++ [asdict c] |}
    (cache_size self + 1).

(** A store that [__init__] has just returned. *)
Definition freshly_constructed (n : Z) (self : PickleFileState) : Prop :=
  exists path w w', PickleFileState_init path n w = (Ok self, w').

(** A store that a [flush] has just returned from without raising. *)
Definition just_flushed (n : Z) (self : PickleFileState) : Prop :=
  exists self0 w w',
    batch_size self0 = n /\ flush (self0, w) = (Ok tt, (self, w')).

End Store.

(** ** The chain reader *)

(** [class EthereumStateProvider(ABC)]: the three abstract reads. Each one
    is a blocking call to a node and may raise. *)
Record EthereumStateProvider : Type := {
  get_last_block_number : result Z;
  get_block_timestamp : Z -> result Z;
  get_transactions_to_address : string -> Z -> result (list transaction);
}.

(** What [w3.eth.get_block] answers, and the node behind [w3.eth]. *)
Record eth_block : Type := {
  timestamp : Z;
  transactions : list transaction;
}.

Record Web3 : Type := {
  eth_block_number : result Z;
  eth_get_block : Z -> result eth_block;
}.

(** [class Web3StateProvider(EthereumStateProvider)]. *)
Definition Web3StateProvider (w3 : Web3) : EthereumStateProvider :=
  {| get_last_block_number := eth_block_number w3;
     get_block_timestamp := fun block_number =>
       match eth_get_block w3 block_number with
       | Ok block_data => Ok (timestamp block_data)
       | Raise e => Raise e
       end;
     get_transactions_to_address := fun address block_number =>
       match eth_get_block w3 block_number with
       | Ok block_data =>
           Ok (List.filter (fun tx => bool_decide (tx_to tx = address))
                           (transactions block_data))
       | Raise e => Raise e
       end |}.

(** ** The crawler *)

(** [class FunctionCallCrawler]: the attributes set by [__init__], the
    store apart ([self.state] is the object the monad threads). *)
Record FunctionCallCrawler : Type := {
  ethereum_state_provider : EthereumStateProvider;
  contract_abi : list pydict;
  contract_addresses : list string;
}.

Section Crawler.

Variable dump : crawl_state -> list Byte.byte.

(** [Web3().eth.contract(abi=abi).decode_function_input(data)]: the name of
    the function and its arguments, or the exception of web3 when the
    selector is unknown to the ABI or the arguments are malformed. *)
Variable decode_function_input : list pydict -> string -> result (string * pydict).

(** [FunctionCallCrawler.process_transaction]. *)
Definition process_transaction (self : FunctionCallCrawler)
    (transaction : transaction) : M unit :=
  let* raw_function_call :=
    lift (decode_function_input (contract_abi self) (tx_data transaction)) in
  let function_name := fst raw_function_call in
  let function_args := snd raw_function_call in
  let* block_timestamp :=
    lift (get_block_timestamp (ethereum_state_provider self)
                              (tx_block_number transaction)) in
  let function_call :=
    {| block_number := tx_block_number transaction;
       block_timestamp := block_timestamp;
       transaction_hash := tx_hash transaction;
       contract_address := tx_to transaction;
       caller_address := tx_from transaction;
       function_name := function_name;
       function_args := function_args |} in
  register_call dump function_call.

(** [FunctionCallCrawler.crawl]. The bare expression [self.state.state]
    that ends the body of the block loop reads an attribute and drops it. *)
Definition crawl (self : FunctionCallCrawler) (from_block to_block : Z)
    (flush_state : bool) : M unit :=
  for_each (py_range from_block (to_block + 1)) (fun block_number =>
    for_each (contract_addresses self) (fun address =>
      let* transactions :=
        lift (get_transactions_to_address (ethereum_state_provider self)
                                          address block_number) in
      for_each transactions (fun transaction =>
        process_transaction self transaction)) ;;
    ret tt) ;;
  if flush_state then flush dump else ret tt.

(** ** The scan as the specification words it *)

(** The record a transaction stands for: the decoded name and arguments,
    the timestamp of its block, and its own hash and addresses. *)
Definition call_of_transaction (self : FunctionCallCrawler)
    (tx : transaction) : result ContractFunctionCall :=
  match decode_function_input (contract_abi self) (tx_data tx) with
  | Raise e => Raise e
  | Ok (name, args) =>
      match get_block_timestamp (ethereum_state_provider self)
                                (tx_block_number tx) with
      | Raise e => Raise e
      | Ok ts =>
          Ok {| block_number := tx_block_number tx;
                block_timestamp := ts;
                transaction_hash := tx_hash tx;
                contract_address := tx_to tx;
                caller_address := tx_from tx;
                function_name := name;
                function_args := args |}
      end
  end.

(** Every element in turn, the first exception ending the traversal. *)
Fixpoint traverse {A B} (f : A -> result B) (xs : list A) : result (list B) :=
  match xs with
  | [] => Ok []
  | x :: rest =>
      match f x with
      | Raise e => Raise e
      | Ok y =>
          match traverse f rest with
          | Raise e => Raise e
          | Ok ys => Ok (y :: ys)
          end
      end
  end.

Definition concat_traverse {A B} (f : A -> result (list B)) (xs : list A)
  : result (list B) :=
  match traverse f xs with
  | Ok ls => Ok (concat ls)
  | Raise e => Raise e
  end.

(** The visit order: blocks ascending over the inclusive range; within a
    block the watched addresses in the order of the configured list;
    within a block and an address the transactions as the reader returns
    them. [scan_pairs] lists the (block, address) pairs in that order and
    [read_pair] is the read made for one pair. *)
Definition scan_pairs (self : FunctionCallCrawler) (from_block to_block : Z)
  : list (Z * string) :=
  List.flat_map
    (fun block_number =>
       map (fun address => (block_number, address)) (contract_addresses self))
    (py_range from_block (to_block + 1)).

Definition read_pair (self : FunctionCallCrawler) (p : Z * string)
  : result (list transaction) :=
  get_transactions_to_address (ethereum_state_provider self) (snd p) (fst p).

Definition visit_order (self : FunctionCallCrawler) (from_block to_block : Z)
  : result (list transaction) :=
  concat_traverse (read_pair self) (scan_pairs self from_block to_block).

(** The same enumeration cut at the first read that raises: what a scan
    can reach at most. *)
Fixpoint concat_until_raise {A B} (f : A -> result (list B)) (xs : list A)
  : list B :=
  match xs with
  | [] => []
  | x :: rest =>
      match f x with
      | Ok l => l ++ concat_until_raise f rest
      | Raise _ => []
      end
  end.

Definition visited (self : FunctionCallCrawler) (from_block to_block : Z)
  : list transaction :=
  concat_until_raise (read_pair self) (scan_pairs self from_block to_block).

(** The body of the two inner loops of [crawl] for one pair. *)
Definition scan_step (self : FunctionCallCrawler) (p : Z * string) : M unit :=
  let* transactions := lift (read_pair self p) in
  for_each transactions (fun transaction => process_transaction self transaction).

Definition calls_of (self : FunctionCallCrawler) (txs : list transaction)
  : result (list ContractFunctionCall) :=
  traverse (call_of_transaction self) txs.

(** The state dictionary after the calls [cs] were appended in turn. *)
Definition push_calls (s : crawl_state) (cs : list ContractFunctionCall)
  : crawl_state :=
  {| last_crawled_block := List.last (map block_number cs) (last_crawled_block s);
     calls := calls s ++ map asdict cs |}.

(** ** Sequences of [register_call] invocations *)

(** The caller invokes [register_call] for each call in turn, whatever the
    previous invocation raised; the store and the file system after each
    invocation are recorded, oldest first. *)
Fixpoint register_calls (cs : list ContractFunctionCall)
    (s : PickleFileState * world) : list (PickleFileState * world) :=
  match cs with
  | [] => []
  | c :: rest =>
      let s' := snd (register_call dump c s) in
      s' :: register_calls rest s'
  end.

Definition after_register_calls (cs : list ContractFunctionCall)
    (s : PickleFileState * world) : PickleFileState * world :=
  List.last (register_calls cs s) s.

(** The number of flushes between two file systems: every flush attempts
    one write, and every attempted write is traced. *)
Definition flushes_between (w w' : world) : Z :=
  Z.of_nat (length (wlog w')) - Z.of_nat (length (wlog w)).

End Crawler.

(** ** What a scan registers and what stops it *)

(** The results of the elements before the first one that raises, and the
    exception that one raises. *)
Fixpoint results_until_raise {A B} (f : A -> result B) (xs : list A) : list B :=
  match xs with
  | [] => []
  | x :: rest =>
      match f x with
      | Ok y => y :: results_until_raise f rest
      | Raise _ => []
      end
  end.

Fixpoint first_raise {A B} (f : A -> result B) (xs : list A) : option exn :=
  match xs with
  | [] => None
  | x :: rest =>
      match f x with
      | Ok _ => first_raise f rest
      | Raise e => Some e
      end
  end.

(** What stops a loop: the exception, or nothing. *)
Definition stop_with (stop : option exn) : M unit :=
  match stop with
  | Some e => lift (Raise e)
  | None => ret tt
  end.

Section ScanOutcome.

Variable decode_function_input : list pydict -> string -> result (string * pydict).

(** The calls a scan of the range hands to the store, in the order of the
    visit: the records of the transactions the reads give before one of
    them raises, up to the first transaction that has no record. *)
Definition registered_calls (self : FunctionCallCrawler) (from_block to_block : Z)
  : list ContractFunctionCall :=
  results_until_raise (call_of_transaction decode_function_input self)
                      (visited self from_block to_block).

(** What ends the scan before the final flush, if anything: the exception
    of the first transaction without a record, or else that of the first
    read that raises. *)
Definition scan_stop (self : FunctionCallCrawler) (from_block to_block : Z)
  : option exn :=
  match first_raise (call_of_transaction decode_function_input self)
                    (visited self from_block to_block) with
  | Some e => Some e
  | None => first_raise (read_pair self) (scan_pairs self from_block to_block)
  end.

End ScanOutcome.

(** A reader answers a read for a block with transactions of that block:
    each one carries the number of the block it was read from. *)
Definition well_formed_reader (p : EthereumStateProvider) : Prop :=
  forall address block_number txs tx,
    get_transactions_to_address p address block_number = Ok txs ->
    tx ∈ txs ->
    tx_block_number tx = block_number.

(** ** A small chain, used in the examples

    One watched address, [0xAAA], and an interface with the single function
    [transfer]. Block 100 holds a [transfer] to the watched address and a
    transaction to another address, block 101 is empty, block 102 holds a
    call the interface does not describe followed by a [transfer]. *)

Definition sample_abi : list pydict :=
  [ [("name"%string, PyStr "transfer"); ("type"%string, PyStr "function")] ].

(** A decoder for the examples: the payload is the name of the function,
    known when an entry of the ABI carries it. *)
Definition sample_decode (abi : list pydict) (data : string)
  : result (string * pydict) :=
  if existsb (fun entry =>
                match entry with
                | (_, PyStr name) :: _ => String.eqb name data
                | _ => false
                end) abi
  then Ok (data, [("to"%string, PyStr "0xBBB"); ("amount"%string, PyInt 5)])
  else Raise DecodeError.

Definition tx_transfer : transaction :=
  {| tx_block_number := 100; tx_hash := "0x01"; tx_to := "0xAAA";
     tx_from := "0xBBB"; tx_data := "transfer" |}.

Definition tx_elsewhere : transaction :=
  {| tx_block_number := 100; tx_hash := "0x02"; tx_to := "0xCCC";
     tx_from := "0xBBB"; tx_data := "transfer" |}.

Definition tx_unknown : transaction :=
  {| tx_block_number := 102; tx_hash := "0x03"; tx_to := "0xAAA";
     tx_from := "0xBBB"; tx_data := "mint" |}.

Definition tx_late : transaction :=
  {| tx_block_number := 102; tx_hash := "0x04"; tx_to := "0xAAA";
     tx_from := "0xDDD"; tx_data := "transfer" |}.

Definition sample_node : Web3 :=
  {| eth_block_number := Ok 102;
     eth_get_block := fun n =>
       if n =? 100 then
         Ok {| timestamp := 1600; transactions := [tx_transfer; tx_elsewhere] |}
       else if n =? 101 then
         Ok {| timestamp := 1612; transactions := [] |}
       else if n =? 102 then
         Ok {| timestamp := 1624; transactions := [tx_unknown; tx_late] |}
       else Raise NotFoundError |}.

Definition sample_crawler : FunctionCallCrawler :=
  {| ethereum_state_provider := Web3StateProvider sample_node;
     contract_abi := sample_abi;
     contract_addresses := ["0xAAA"%string] |}.

(** The record of [tx_transfer]. *)
Definition sample_call : ContractFunctionCall :=
  {| block_number := 100; block_timestamp := 1600;
     transaction_hash := "0x01"; contract_address := "0xAAA";
     caller_address := "0xBBB"; function_name := "transfer";
     function_args := [("to"%string, PyStr "0xBBB"); ("amount"%string, PyInt 5)] |}.

(** The record of [tx_late]. *)
Definition sample_call_late : ContractFunctionCall :=
  {| block_number := 102; block_timestamp := 1624;
     transaction_hash := "0x04"; contract_address := "0xAAA";
     caller_address := "0xDDD"; function_name := "transfer";
     function_args := [("to"%string, PyStr "0xBBB"); ("amount"%string, PyInt 5)] |}.

Definition sample_calls : list ContractFunctionCall :=
  [sample_call; sample_call; sample_call_late].

Definition sample_state : crawl_state :=
  {| last_crawled_block := 100; calls := [asdict sample_call] |}.

(** A pickle for the examples: two bytes, the cursor and the number of
    calls, read back as one of the two states the examples write. *)
Definition byte_of_Z (z : Z) : Byte.byte :=
  match Byte.of_N (Z.to_N (z mod 256)) with
  | Some b => b
  | None => Byte.x00
  end.

Definition sample_dump (st : crawl_state) : list Byte.byte :=
  [byte_of_Z (last_crawled_block st); byte_of_Z (Z.of_nat (length (calls st)))].

Definition sample_load (content : list Byte.byte) : option crawl_state :=
  List.find
    (fun st => bool_decide (map Byte.to_N (sample_dump st) = map Byte.to_N content))
    [initial_state; sample_state].

Definition sample_world : world :=
  {| files := ∅; faults := []; wlog := [] |}.

(** A file system whose next write fails at [open]. *)
Definition failing_world : world :=
  {| files := ∅; faults := [OpenFails]; wlog := [] |}.

Definition sample_store (n : Z) : PickleFileState :=
  {| state := initial_state; pickle_file := "state.pickle";
     state_file := "state.pickle"; batch_size := n; cache_size := 0 |}.

(** A decoder that takes every payload for the name of a function without
    arguments. *)
Definition sample_decode_any (abi : list pydict) (data : string)
  : result (string * pydict) :=
  Ok (data, []).

(** The file system once a store was constructed on ["state.pickle"]. *)
Definition sample_world_created : world :=
  snd (PickleFileState_init sample_dump sample_load "state.pickle" 2 sample_world).

(** * centipede: [web3_util.py] and [generator.py] *)

(** ** Python exceptions and results *)

(** The built-in exceptions these modules raise, the validation error of
    libcst, and [LibraryError] for whatever else a library call raises. *)
Inductive py_exception : Type :=
  | ValueError (message : string)
  | TypeError (message : string)
  | KeyError (key : string)
  | CSTValidationError (message : string)
  | LibraryError (name : string).

Inductive outcome (A : Type) : Type :=
  | Return (a : A)
  | Throw (e : py_exception).
Arguments Return {A} a.
Arguments Throw {A} e.

(** ** [web3_util.py] *)

(** What [cast_to_python_type] returns: one of the callables [int],
    [bytes], [str], [Web3.toChecksumAddress] and [bool]. *)
Inductive python_cast : Type :=
  | cast_int
  | cast_bytes
  | cast_str
  | cast_toChecksumAddress
  | cast_bool.

(** [s.startswith(prefix)]. *)
Definition startswith (s prefix : string) : bool := String.prefix prefix s.

(** [cast_to_python_type]. *)
Definition cast_to_python_type (evm_type : string) : outcome python_cast :=
  if startswith evm_type "uint" || startswith evm_type "int" then Return cast_int
  else if startswith evm_type "bytes" then Return cast_bytes
  else if String.eqb evm_type "string" then Return cast_str
  else if String.eqb evm_type "address" then Return cast_toChecksumAddress
  else if String.eqb evm_type "bool" then Return cast_bool
  else Throw (ValueError ("Cannot convert to python type " ++ evm_type)).

(** The node behind a [Web3] client as [web3_util] uses it. Requests act on
    the state of the node; signing and address conversion are local. A
    [ContractFunction] is taken for its [buildTransaction] method, and the
    contract class that [web3.eth.contract(abi=..., bytecode=...)] returns
    for its [constructor]. *)
Record TxReceipt : Type := {
  contractAddress : string;
}.

Section web3_util.

Variable node : Type.

Definition ContractFunction : Type :=
  pydict -> node -> outcome pydict * node.

Record Web3Client : Type := {
  toChecksumAddress : string -> outcome string;
  get_transaction_count : string -> node -> outcome Z * node;
  sign_transaction : pydict -> string -> outcome (list Byte.byte);
  send_raw_transaction : list Byte.byte -> node -> outcome (list Byte.byte) * node;
  wait_for_transaction_receipt_request :
    list Byte.byte -> node -> outcome TxReceipt * node;
  eth_contract :
    list pydict -> string -> outcome (list pyval -> outcome ContractFunction);
}.

(** [get_nonce]. *)
Definition get_nonce (web3 : Web3Client) (address : string)
    (n : node) : outcome Z * node :=
  get_transaction_count web3 address n.

(** [build_transaction]: the dictionary literal reads the nonce before
    [buildTransaction] is called. *)
Definition build_transaction (web3 : Web3Client) (builder : ContractFunction)
    (sender : string) (n : node) : outcome pydict * node :=
  match get_nonce web3 sender n with
  | (Throw e, n1) => (Throw e, n1)
  | (Return nonce, n1) =>
      builder [("from"%string, PyStr sender); ("nonce"%string, PyInt nonce)] n1
  end.

(** [submit_signed_raw_transaction]. *)
Definition submit_signed_raw_transaction (web3 : Web3Client)
    (signed_raw_transaction : list Byte.byte) (n : node)
  : outcome (list Byte.byte) * node :=
  send_raw_transaction web3 signed_raw_transaction n.

(** [submit_transaction]. *)
Definition submit_transaction (web3 : Web3Client) (transaction : pydict)
    (signer_private_key : string) (n : node)
  : outcome (list Byte.byte) * node :=
  match sign_transaction web3 transaction signer_private_key with
  | Throw e => (Throw e, n)
  | Return rawTransaction => submit_signed_raw_transaction web3 rawTransaction n
  end.

(** [wait_for_transaction_receipt]. *)
Definition wait_for_transaction_receipt (web3 : Web3Client)
    (transaction_hash : list Byte.byte) (n : node) : outcome TxReceipt * node :=
  wait_for_transaction_receipt_request web3 transaction_hash n.

(** [deploy_contract]. [constructor_arguments] defaults to [None], and
    unpacking [None] with a star in the call of [contract.constructor]
    raises [TypeError] while the arguments of [build_transaction] are
    evaluated. *)
Definition deploy_contract (web3 : Web3Client) (contract_bytecode : string)
    (contract_abi : list pydict) (deployer : string)
    (deployer_private_key : string)
    (constructor_arguments : option (list pyval)) (n : node)
  : outcome string * node :=
  match eth_contract web3 contract_abi contract_bytecode with
  | Throw e => (Throw e, n)
  | Return constructor =>
      match constructor_arguments with
      | None =>
          (Throw (TypeError "argument after * must be an iterable, not NoneType"), n)
      | Some arguments =>
          match constructor arguments with
          | Throw e => (Throw e, n)
          | Return builder =>
              match build_transaction web3 builder deployer n with
              | (Throw e, n1) => (Throw e, n1)
              | (Return transaction, n1) =>
                  match submit_transaction web3 transaction deployer_private_key n1 with
                  | (Throw e, n2) => (Throw e, n2)
                  | (Return transaction_hash, n2) =>
                      match wait_for_transaction_receipt web3 transaction_hash n2 with
                      | (Throw e, n3) => (Throw e, n3)
                      | (Return transaction_receipt, n3) =>
                          (toChecksumAddress web3 (contractAddress transaction_receipt), n3)
                      end
                  end
              end
          end
      end
  end.

(** [read_keys_from_env], on the environment [os.environ]. The second test
    reads [raw_address] again, as the source does. *)
Definition read_keys_from_env (web3 : Web3Client)
    (environ : gmap string string) : outcome (string * option string) :=
  let raw_address := environ !! "CENTIPEDE_ETHEREUM_ADDRESS"%string in
  match raw_address with
  | None => Throw (ValueError "CENTIPEDE_ETHEREUM_ADDRESS is not set")
  | Some address =>
      let private_key := environ !! "CENTIPEDE_ETHEREUM_ADDRESS_PRIVATE_KEY"%string in
      match raw_address with
      | None => Throw (ValueError "CENTIPEDE_ETHEREUM_ADDRESS_PRIVATE_KEY is not set")
      | Some _ =>
          match toChecksumAddress web3 address with
          | Throw e => Throw e
          | Return checksum => Return (checksum, private_key)
          end
      end
  end.

End web3_util.

(** ** [generator.py] *)

(** The libcst nodes the generator builds. A [Subscript] holds the
    expressions of its [SubscriptElement(slice=Index(value=...))] items;
    [Parameters] and [IndentedBlock] are the lists they wrap. *)
Inductive cst_expression : Type :=
  | Name (value : string)
  | Subscript (value : cst_expression) (slice : list cst_expression).

Record cst_Annotation : Type := Annotation {
  annotation : cst_expression;
}.

Record cst_Param : Type := Param {
  param_name : cst_expression;
  param_annotation : option cst_Annotation;
}.

(** An entry of an ABI and one of its inputs: dictionaries, a key of which
    may be missing. *)
Record abi_input : Type := {
  input_name : option string;
  input_type : option string;
}.

Record abi_entry : Type := {
  entry_type : option string;
  entry_name : option string;
  entry_inputs : option (list abi_input);
}.

(** [cst.Name(value)]: libcst refuses an empty identifier. *)
Definition cst_Name (value : string) : outcome cst_expression :=
  if String.eqb value "" then
    Throw (CSTValidationError "Cannot have empty name identifier.")
  else Return (Name value).

(** [make_annotation]. *)
Definition make_annotation (types : list string) : cst_Annotation :=
  match types with
  | [t] => Annotation (Name t)
  | _ => Annotation (Subscript (Name "Union") (map Name types))
  end.

(** [EVM_PYTHON_TYPE_MAPPINGS]. *)
Definition EVM_PYTHON_TYPE_MAPPINGS : list (string * cst_Annotation) :=
  [ ("uint256"%string, make_annotation ["int"%string]);
    ("uint8"%string, make_annotation ["int"%string]);
    ("uint"%string, make_annotation ["int"%string]);
    ("bytes4"%string, make_annotation ["bytes"%string]);
    ("string"%string, make_annotation ["str"%string]);
    ("address"%string,
       make_annotation ["Address"%string; "ChecksumAddress"%string]) ].

(** [d[key]] on a dictionary with string keys. *)
Fixpoint getitem {V} (d : list (string * V)) (key : string) : outcome V :=
  match d with
  | [] => Throw (KeyError key)
  | (k, v) :: rest => if String.eqb k key then Return v else getitem rest key
  end.

(** The entries a class method is generated for, and the inputs that come
    without a name. *)
Definition is_function (entry : abi_entry) : bool :=
  match entry_type entry with
  | Some t => String.eqb t "function"
  | None => false
  end.

Definition unnamed (param : abi_input) : bool :=
  match input_name param with
  | Some given => String.eqb given ""
  | None => false
  end.

(** [str(n)] for a non-negative integer. *)
Definition str_of_nat (n : nat) : string :=
  NilEmpty.string_of_uint (Nat.to_uint n).

(** The name the loop of [generate_contract_function] gives to the input at
    position [i] whose given name is [given], when the counter stood at [k]
    before the first input: the given name, or [arg] followed by the
    counter, which has moved once for each unnamed input before. *)
Definition generated_name (inputs : list abi_input) (k i : nat)
    (given : string) : string :=
  if String.eqb given "" then
    ("arg" ++ str_of_nat (k + length (List.filter unnamed (take i inputs))))%string
  else given.

Section generator.

(** The type of the statements of libcst and [cst.parse_statement]. *)
Variable statement : Type.
Variable parse_statement : string -> outcome statement.

Record cst_FunctionDef : Type := FunctionDef {
  def_name : cst_expression;
  def_params : list cst_Param;
  def_body : list statement;
  def_returns : option cst_Annotation;
}.

Record cst_ClassDef : Type := ClassDef {
  class_name : cst_expression;
  class_body : list cst_FunctionDef;
}.

(** The loop over [func_object["inputs"]] of [generate_contract_function],
    with its three variables. *)
Fixpoint generate_params (inputs : list abi_input) (default_counter : nat)
    (param_names : list string) (func_params : list cst_Param)
  : outcome (list string * list cst_Param) :=
  match inputs with
  | [] => Return (param_names, func_params)
  | param :: rest =>
      match input_name param with
      | None => Throw (KeyError "name")
      | Some given =>
          let param_name :=
            if String.eqb given "" then ("arg" ++ str_of_nat default_counter)%string
            else given in
          let default_counter :=
            if String.eqb given "" then S default_counter else default_counter in
          match input_type param with
          | None => Throw (KeyError "type")
          | Some evm_type =>
              match getitem EVM_PYTHON_TYPE_MAPPINGS evm_type with
              | Throw e => Throw e
              | Return param_type =>
                  generate_params rest default_counter
                    (param_names ++ [param_name])
                    (func_params ++ [Param (Name param_name) (Some param_type)])
              end
          end
      end
  end.

(** The source text of the proxy call. *)
Definition proxy_call_code (name : string) (param_names : list string) : string :=
  ("return self.contract.functions." ++ name ++ "("
    ++ String.concat "," param_names ++ ").call()")%string.

(** [generate_contract_function]. *)
Definition generate_contract_function (func_object : abi_entry)
  : outcome cst_FunctionDef :=
  match entry_inputs func_object with
  | None => Throw (KeyError "inputs")
  | Some inputs =>
      match generate_params inputs 1 [] [Param (Name "self") None] with
      | Throw e => Throw e
      | Return (param_names, func_params) =>
          match entry_name func_object with
          | None => Throw (KeyError "name")
          | Some name =>
              match cst_Name name with
              | Throw e => Throw e
              | Return func_name =>
                  match parse_statement (proxy_call_code name param_names) with
                  | Throw e => Throw e
                  | Return call =>
                      Return (FunctionDef func_name func_params [call]
                                          (Some (Annotation (Name "Any"))))
                  end
              end
          end
      end
  end.

(** The comprehension [[generate_contract_function(function) for function
    in abi if function["type"] == "function"]]. *)
Fixpoint generate_functions (abi : list abi_entry)
  : outcome (list cst_FunctionDef) :=
  match abi with
  | [] => Return []
  | function :: rest =>
      match entry_type function with
      | None => Throw (KeyError "type")
      | Some t =>
          if String.eqb t "function" then
            match generate_contract_function function with
            | Throw e => Throw e
            | Return f =>
                match generate_functions rest with
                | Throw e => Throw e
                | Return fs => Return (f :: fs)
                end
            end
          else generate_functions rest
      end
  end.

(** The three statements of the generated [__init__], parsed in turn. *)
Fixpoint parse_statements (codes : list string) : outcome (list statement) :=
  match codes with
  | [] => Return []
  | code :: rest =>
      match parse_statement code with
      | Throw e => Throw e
      | Return st =>
          match parse_statements rest with
          | Throw e => Throw e
          | Return sts => Return (st :: sts)
          end
      end
  end.

(** [generate_contract_class]. *)
Definition generate_contract_class (abi : list abi_entry) : outcome cst_ClassDef :=
  match parse_statements
          [ "self.web3 = web3"%string;
            "self.address = contract_address"%string;
            "self.contract = web3.eth.contract(address=self.address, abi=CONTRACT_ABI)"%string ]
  with
  | Throw e => Throw e
  | Return body =>
      let class_constructor :=
        FunctionDef (Name "__init__")
          [ Param (Name "self") None;
            Param (Name "web3") (Some (Annotation (Name "Web3")));
            Param (Name "contract_address")
                  (Some (make_annotation ["Address"%string; "ChecksumAddress"%string])) ]
          body None in
      match generate_functions abi with
      | Throw e => Throw e
      | Return functions =>
          Return (ClassDef (Name "Contract") (class_constructor :: functions))
      end
  end.

End generator.

Arguments FunctionDef {statement} _ _ _ _.
Arguments def_name {statement} _.
Arguments def_params {statement} _.
Arguments def_body {statement} _.
Arguments def_returns {statement} _.
Arguments ClassDef {statement} _ _.
Arguments class_name {statement} _.
Arguments class_body {statement} _.

(** ** Sample values for [web3_util.py] and [generator.py] *)

(** A client whose node only counts the requests it received. *)
Definition sample_client : Web3Client nat :=
  {| toChecksumAddress := fun address =>
       if String.eqb address "" then Throw (ValueError "invalid address")
       else Return address;
     get_transaction_count := fun _ n => (Return 7, S n);
     sign_transaction := fun _ _ => Return [];
     send_raw_transaction := fun raw n => (Return raw, S n);
     wait_for_transaction_receipt_request := fun _ n =>
       (Return {| contractAddress := "0xC0DE" |}, S n);
     eth_contract := fun _ _ =>
       Return (fun _ => Return (fun params n => (Return params, S n))) |}.

Definition sample_environ : gmap string string :=
  {[ "CENTIPEDE_ETHEREUM_ADDRESS"%string := "0xAAA"%string ]}.

(** [transfer(address to, uint256, uint256)], the last two inputs unnamed. *)
Definition sample_inputs : list abi_input :=
  [ {| input_name := Some "to"%string; input_type := Some "address"%string |};
    {| input_name := Some ""%string; input_type := Some "uint256"%string |};
    {| input_name := Some ""%string; input_type := Some "uint256"%string |} ].

Definition sample_function : abi_entry :=
  {| entry_type := Some "function"%string;
     entry_name := Some "transfer"%string;
     entry_inputs := Some sample_inputs |}.

(** [pause(bool flag)]: a function with an input of a type outside the
    table, and an event. *)
Definition sample_flag_input : abi_input :=
  {| input_name := Some "flag"%string; input_type := Some "bool"%string |}.

Definition sample_pause : abi_entry :=
  {| entry_type := Some "function"%string;
     entry_name := Some "pause"%string;
     entry_inputs := Some [sample_flag_input] |}.

Definition sample_event : abi_entry :=
  {| entry_type := Some "event"%string;
     entry_name := Some "Transfer"%string;
     entry_inputs := None |}.

(** A parser for the examples: a statement is its source text. *)
Definition sample_parse (code : string) : outcome string := Return code.

(** * Properties *)

(** ** The monad and the loops *)

Lemma bind_ext {A B} (m m' : M A) (k k' : A -> M B) s :
  m s = m' s ->
  (forall a s', k a s' = k' a s') ->
  bind m k s = bind m' k' s.
Proof.
  intros Hm Hk. unfold bind. rewrite Hm.
  destruct (m' s) as [[a|e] s']; [apply Hk | reflexivity].
Qed.

Lemma bind_assoc {A B C} (m : M A) (k : A -> M B) (h : B -> M C) s :
  bind (bind m k) h s = bind m (fun a => bind (k a) h) s.
Proof.
  unfold bind. destruct (m s) as [[a|e] s']; reflexivity.
Qed.

Lemma bind_ret_r (m : M unit) s : bind m (fun _ => ret tt) s = m s.
Proof.
  unfold bind, ret. destruct (m s) as [[[]|e] s']; reflexivity.
Qed.

Lemma for_each_app {A} (xs ys : list A) (f : A -> M unit) s :
  for_each (xs ++ ys) f s = bind (for_each xs f) (fun _ => for_each ys f) s.
Proof.
  revert s. induction xs as [|x xs IH]; intros s; simpl.
  - reflexivity.
  - rewrite bind_assoc. apply bind_ext; [reflexivity | intros _ s'; apply IH].
Qed.

(** ** [range] *)

Lemma py_range_split lo mid hi :
  lo <= mid -> mid <= hi ->
  py_range lo hi = py_range lo mid ++ py_range mid hi.
Proof.
  intros H1 H2. unfold py_range.
  replace (Z.to_nat (hi - lo)) with (Z.to_nat (mid - lo) + Z.to_nat (hi - mid))%nat by lia.
  rewrite seq_app, map_app. f_equal. simpl.
  replace (seq (Z.to_nat (mid - lo)) (Z.to_nat (hi - mid)))
    with (seq (Z.to_nat (mid - lo) + 0) (Z.to_nat (hi - mid)))
    by (f_equal; lia).
  rewrite <- (fmap_add_seq (Z.to_nat (mid - lo)) 0).
  change (@fmap list list_fmap) with (@map). rewrite map_map.
  apply map_ext. intros i. lia.
Qed.

Lemma elem_of_py_range lo hi z : z ∈ py_range lo hi <-> lo <= z < hi.
Proof.
  unfold py_range. rewrite list_elem_of_In, in_map_iff. split.
  - intros (i & <- & Hi). apply in_seq in Hi. lia.
  - intros Hz. exists (Z.to_nat (z - lo)). split; [lia|].
    apply in_seq. lia.
Qed.

(** ** The store *)

Section StoreProperties.

Variable dump : crawl_state -> list Byte.byte.
Variable load : list Byte.byte -> option crawl_state.

#[local] Abbreviation flush := (flush dump).
#[local] Abbreviation register_call := (register_call dump).
#[local] Abbreviation register_calls := (register_calls dump).
#[local] Abbreviation after_register_calls := (after_register_calls dump).

Lemma with_state_id self : with_state self (state self) (cache_size self) = self.
Proof. destruct self; reflexivity. Qed.

Lemma write_file_log path content w :
  wlog (snd (write_file path content w)) <> wlog w /\
  length (wlog (snd (write_file path content w))) = S (length (wlog w)).
Proof.
  unfold write_file.
  destruct (next_fault w); simpl; rewrite ?length_app; simpl; split; try lia;
    intros H; apply (f_equal length) in H; rewrite length_app in H; simpl in H; lia.
Qed.

Lemma write_file_ok path content w :
  next_fault w = NoFault ->
  write_file path content w =
    (Ok tt, {| files := <[path := content]> (files w);
               faults := tail (faults w);
               wlog := wlog w ++ [EvWrite path content] |}).
Proof. intros H. unfold write_file. rewrite H. reflexivity. Qed.

Lemma no_faults_next w : faults w = [] -> next_fault w = NoFault.
Proof. unfold next_fault. intros ->. reflexivity. Qed.

Lemma flush_ok self w :
  next_fault w = NoFault ->
  flush (self, w) =
    (Ok tt, (with_state self (state self) 0,
             {| files := <[pickle_file self := dump (state self)]> (files w);
                faults := tail (faults w);
                wlog := wlog w ++ [EvWrite (pickle_file self) (dump (state self))] |})).
Proof.
  intros H. unfold flush. rewrite (write_file_ok _ _ _ H). reflexivity.
Qed.

Lemma flush_inv self w r self' w' :
  flush (self, w) = (r, (self', w')) ->
  w' = snd (write_file (pickle_file self) (dump (state self)) w) /\
  ((r = Ok tt /\ self' = with_state self (state self) 0 /\
    files w' !! pickle_file self = Some (dump (state self))) \/
   (r = Raise StorageError /\ self' = self)).
Proof.
  unfold flush, write_file.
  destruct (next_fault w); simpl; intros H; inversion H; subst; clear H;
    (split; [reflexivity|]); [left | right | right]; repeat split.
  simpl. apply lookup_insert_eq.
Qed.

Lemma register_call_unfold c self w :
  register_call c (self, w) =
    if cache_size self + 1 =? batch_size self
    then flush (appended self c, w)
    else (Ok tt, (appended self c, w)).
Proof. reflexivity. Qed.

(** Whatever the flush inside does, [register_call] has appended the call
    and moved the cursor. *)
Lemma register_call_inv c self w r self' w' :
  register_call c (self, w) = (r, (self', w')) ->
  self' = with_state self (state (appended self c)) (cache_size self') /\
  ((cache_size self + 1 <> batch_size self /\ r = Ok tt /\ w' = w /\
    cache_size self' = cache_size self + 1) \/
   (cache_size self + 1 = batch_size self /\
    w' = snd (write_file (pickle_file self) (dump (state (appended self c))) w) /\
    ((r = Ok tt /\ cache_size self' = 0 /\
      files w' !! pickle_file self = Some (dump (state self'))) \/
     (r = Raise StorageError /\ cache_size self' = cache_size self + 1)))).
Proof.
  rewrite register_call_unfold.
  destruct (Z.eqb_spec (cache_size self + 1) (batch_size self)) as [Heq|Hne].
  - intros H. apply flush_inv in H as [Hw [(-> & -> & Hf)|(-> & ->)]].
    + split; [reflexivity|]. right. split; [exact Heq|]. split; [exact Hw|].
      left. repeat split. exact Hf.
    + split; [reflexivity|]. right. split; [exact Heq|]. split; [exact Hw|].
      right. split; reflexivity.
  - intros H. inversion H; subst. split; [reflexivity|]. left. repeat split.
    exact Hne.
Qed.

Lemma register_call_state c s :
  state (fst (snd (register_call c s))) =
    {| last_crawled_block := block_number c;
       calls := calls (state (fst s)) ++ [asdict c] |}.
Proof.
  destruct s as [self w].
  destruct (register_call c (self, w)) as [r [self' w']] eqn:E.
  apply register_call_inv in E as [-> _]. reflexivity.
Qed.

Lemma register_call_path c s :
  pickle_file (fst (snd (register_call c s))) = pickle_file (fst s).
Proof.
  destruct s as [self w].
  destruct (register_call c (self, w)) as [r [self' w']] eqn:E.
  apply register_call_inv in E as [-> _]. reflexivity.
Qed.

(** A write is traced, so a [register_call] either leaves the file system
    alone or lengthens the trace by one. *)
Lemma register_call_world c s :
  snd (snd (register_call c s)) = snd s \/
  length (wlog (snd (snd (register_call c s)))) = S (length (wlog (snd s))).
Proof.
  destruct s as [self w].
  destruct (register_call c (self, w)) as [r [self' w']] eqn:E.
  apply register_call_inv in E as [_ [(_ & _ & -> & _)|(_ & -> & _)]]; simpl.
  - left; reflexivity.
  - right. apply write_file_log.
Qed.

(** *** [push_calls] *)

Lemma last_cons_default {A} (x d : A) l : List.last (x :: l) d = List.last l x.
Proof.
  revert x d. induction l as [|y l IH]; intros x d; [reflexivity|].
  change (List.last (x :: y :: l) d) with (List.last (y :: l) d).
  rewrite !IH. reflexivity.
Qed.

Lemma push_calls_nil st : push_calls st [] = st.
Proof. destruct st; unfold push_calls; simpl. by rewrite app_nil_r. Qed.

Lemma push_calls_cons st c cs :
  push_calls st (c :: cs) =
  push_calls {| last_crawled_block := block_number c;
                calls := calls st ++ [asdict c] |} cs.
Proof.
  unfold push_calls. cbn [last_crawled_block calls map].
  rewrite last_cons_default, <- app_assoc. reflexivity.
Qed.

Lemma push_calls_app st cs1 cs2 :
  push_calls st (cs1 ++ cs2) = push_calls (push_calls st cs1) cs2.
Proof.
  revert st. induction cs1 as [|c cs1 IH]; intros st.
  - by rewrite push_calls_nil.
  - simpl. rewrite !push_calls_cons. apply IH.
Qed.

Lemma push_calls_snoc_cursor st cs c :
  last_crawled_block (push_calls st (cs ++ [c])) = block_number c.
Proof. unfold push_calls. simpl. rewrite map_app. simpl. apply last_last. Qed.

(** *** Traces of [register_call] invocations *)

Lemma register_calls_length cs s : length (register_calls cs s) = length cs.
Proof.
  revert s. induction cs as [|c cs IH]; intros s; simpl; [|rewrite IH]; reflexivity.
Qed.

Lemma register_calls_lookup cs s j sj :
  register_calls cs s !! j = Some sj ->
  state (fst sj) = push_calls (state (fst s)) (take (S j) cs).
Proof.
  revert s j. induction cs as [|c cs IH]; intros s j; [done|].
  destruct j as [|j]; simpl.
  - intros [= <-]. rewrite register_call_state, take_0.
    rewrite push_calls_cons, push_calls_nil. reflexivity.
  - intros H. apply IH in H. rewrite H, register_call_state.
    symmetry. apply push_calls_cons.
Qed.

Lemma register_calls_cursors cs s :
  map (fun s' => get_last_crawled_block (fst s')) (register_calls cs s) =
  map block_number cs.
Proof.
  revert s. induction cs as [|c cs IH]; intros s; simpl; [reflexivity|].
  f_equal; [|apply IH].
  unfold get_last_crawled_block. rewrite register_call_state. reflexivity.
Qed.

Lemma sorted_le_lookup (l : list Z) i j x y :
  Sorted Z.le l -> (i <= j)%nat -> l !! i = Some x -> l !! j = Some y -> x <= y.
Proof.
  intros Hs. apply Sorted_StronglySorted in Hs; [|intros a b c; lia].
  revert i j. induction Hs as [|a l Hs IH Hall]; intros i j Hij Hi Hj; [done|].
  destruct i as [|i], j as [|j]; simpl in *; try lia.
  - injection Hi as <-. injection Hj as <-. lia.
  - injection Hi as <-. rewrite Forall_forall in Hall. apply Hall.
    eapply list_elem_of_lookup_2; eassumption.
  - apply (IH i j); [lia | assumption..].
Qed.

Lemma after_register_calls_cons c cs s :
  after_register_calls (c :: cs) s =
  after_register_calls cs (snd (register_call c s)).
Proof. unfold after_register_calls. simpl register_calls at 1. apply last_cons_default. Qed.

Lemma after_register_calls_one c s :
  after_register_calls [c] s = snd (register_call c s).
Proof. reflexivity. Qed.

Lemma after_register_calls_app cs1 cs2 s :
  after_register_calls (cs1 ++ cs2) s =
  after_register_calls cs2 (after_register_calls cs1 s).
Proof.
  revert s. induction cs1 as [|c cs1 IH]; intros s; [reflexivity|].
  simpl app. rewrite !after_register_calls_cons. apply IH.
Qed.

Lemma after_register_calls_path cs s :
  pickle_file (fst (after_register_calls cs s)) = pickle_file (fst s).
Proof.
  revert s. induction cs as [|c cs IH]; intros s; [reflexivity|].
  rewrite after_register_calls_cons, IH. apply register_call_path.
Qed.

Lemma after_register_calls_world cs s :
  snd (after_register_calls cs s) = snd s \/
  (length (wlog (snd s)) < length (wlog (snd (after_register_calls cs s))))%nat.
Proof.
  revert s. induction cs as [|c cs IH]; intros s; [left; reflexivity|].
  rewrite after_register_calls_cons.
  destruct (IH (snd (register_call c s))) as [He|Hlt];
    destruct (register_call_world c s) as [Hs|Hs].
  - left. congruence.
  - right. rewrite He. lia.
  - right. rewrite <- Hs. exact Hlt.
  - right. lia.
Qed.

(** Below the batch size no flush happens: the calls pile up in memory. *)
Lemma after_register_calls_below cs self w :
  cache_size self + Z.of_nat (length cs) < batch_size self ->
  after_register_calls cs (self, w) =
    (with_state self (push_calls (state self) cs)
                (cache_size self + Z.of_nat (length cs)), w).
Proof.
  revert self. induction cs as [|c cs IH]; intros self Hlt.
  - simpl. rewrite push_calls_nil, Z.add_0_r, with_state_id. reflexivity.
  - rewrite after_register_calls_cons, register_call_unfold.
    simpl length in Hlt.
    destruct (Z.eqb_spec (cache_size self + 1) (batch_size self)) as [Heq|_]; [lia|].
    simpl snd. rewrite IH by (simpl; lia).
    rewrite push_calls_cons. unfold with_state, appended. simpl.
    do 2 f_equal. lia.
Qed.

Lemma init_inv path n w self w' :
  PickleFileState_init dump load path n w = (Ok self, w') ->
  pickle_file self = path /\ batch_size self = n /\ cache_size self = 0.
Proof.
  unfold PickleFileState_init.
  destruct (files w !! path) as [content|].
  - destruct (load content); intros H; inversion H; subst; auto.
  - destruct (write_file path (dump initial_state) w) as [[[]|e] w1];
      intros H; inversion H; subst; auto.
Qed.

Lemma fresh_or_flushed_empty n self :
  freshly_constructed dump load n self \/ just_flushed dump n self ->
  batch_size self = n /\ cache_size self = 0.
Proof.
  intros [(path & w & w' & H)|(self0 & w & w' & Hn & H)].
  - apply init_inv in H. tauto.
  - apply flush_inv in H as [_ [(_ & -> & _)|(H & _)]]; [auto | discriminate].
Qed.

(** C3. Along a sequence of [register_call] invocations whose block numbers
    do not decrease, every invocation appends its call and sets the cursor
    to the block number of that call, so the cursors read after the
    invocations do not decrease either, and a call's block number is at most
    every cursor read once the call is in the list. The cursor the store
    had before the first invocation joins the non-decreasing sequence when
    it is at most the first block number, as [-1] is on a new store. *)
Theorem register_calls_cursor_non_decreasing cs s :
  Sorted Z.le (map block_number cs) ->
  let trace := register_calls cs s in
  let cursor := fun s' : PickleFileState * world => get_last_crawled_block (fst s') in
  length trace = length cs /\
  (forall j c sj, cs !! j = Some c -> trace !! j = Some sj ->
     cursor sj = block_number c /\
     calls (state (fst sj)) = calls (state (fst s)) ++ map asdict (take (S j) cs)) /\
  Sorted Z.le (map cursor trace) /\
  (forall i j c sj, (i <= j)%nat -> cs !! i = Some c -> trace !! j = Some sj ->
     asdict c ∈ calls (state (fst sj)) /\ block_number c <= cursor sj) /\
  (forall c0, head cs = Some c0 -> cursor s <= block_number c0 ->
     Sorted Z.le (cursor s :: map cursor trace)).
Proof.
  intros Hsorted trace cursor.
  assert (Hstep : forall j c sj, cs !! j = Some c -> trace !! j = Some sj ->
     cursor sj = block_number c /\
     calls (state (fst sj)) = calls (state (fst s)) ++ map asdict (take (S j) cs)).
  { intros j c sj Hc Hsj. apply register_calls_lookup in Hsj.
    unfold cursor, get_last_crawled_block. rewrite Hsj.
    split; [|reflexivity].
    rewrite (take_S_r _ _ _ Hc). apply push_calls_snoc_cursor. }
  split; [apply register_calls_length|].
  split; [exact Hstep|].
  split; [unfold trace, cursor; rewrite register_calls_cursors; exact Hsorted|].
  split; cycle 1.
  { intros c0 Hhead Hle. unfold trace, cursor at 2.
    rewrite register_calls_cursors.
    destruct cs as [|c cs']; [discriminate|]. injection Hhead as ->.
    constructor; [exact Hsorted|]. constructor. exact Hle. }
  intros i j c sj Hij Hc Hsj.
  assert (Hj : is_Some (cs !! j)).
  { apply lookup_lt_is_Some. rewrite <- (register_calls_length cs s).
    apply lookup_lt_is_Some. eauto. }
  destruct Hj as [cj Hcj].
  destruct (Hstep j cj sj Hcj Hsj) as [Hcur Hcalls].
  split.
  - rewrite Hcalls. apply elem_of_app. right.
    apply list_elem_of_In, in_map, list_elem_of_In.
    apply list_elem_of_lookup. exists i. rewrite lookup_take_lt by lia. exact Hc.
  - rewrite Hcur.
    apply (sorted_le_lookup (map block_number cs) i j); [assumption..| |].
    + change (map block_number cs) with (block_number <$> cs).
      rewrite list_lookup_fmap, Hc. reflexivity.
    + change (map block_number cs) with (block_number <$> cs).
      rewrite list_lookup_fmap, Hcj. reflexivity.
Qed.

(** C4. On a store just constructed or just flushed, with batch size [n] at
    least one, [n] invocations of [register_call] flush exactly once, and
    [n - 1] invocations (or any smaller number) do not flush. *)
Theorem auto_flush_exactly_at_batch_size n self cs w :
  freshly_constructed dump load n self \/ just_flushed dump n self ->
  1 <= n ->
  (Z.of_nat (length cs) = n ->
     flushes_between w (snd (after_register_calls cs (self, w))) = 1) /\
  (Z.of_nat (length cs) = n - 1 ->
     flushes_between w (snd (after_register_calls cs (self, w))) = 0) /\
  (Z.of_nat (length cs) < n ->
     snd (after_register_calls cs (self, w)) = w).
Proof.
  intros Hfresh Hn. apply fresh_or_flushed_empty in Hfresh as [Hb Hc].
  assert (Hbelow : forall cs', Z.of_nat (length cs') < n ->
            after_register_calls cs' (self, w) =
            (with_state self (push_calls (state self) cs')
                        (Z.of_nat (length cs')), w)).
  { intros cs' Hlt. rewrite after_register_calls_below by lia.
    rewrite Hc. reflexivity. }
  split; [|split].
  - intros Hlen.
    destruct (exists_last (l := cs)) as (cs' & c & ->).
    { intros ->. simpl in Hlen. lia. }
    rewrite length_app in Hlen. simpl in Hlen.
    rewrite after_register_calls_app, Hbelow by lia.
    rewrite after_register_calls_one.
    match goal with
    | |- context [register_call c ?s0] =>
        destruct (register_call c s0) as [r [self' w']] eqn:E
    end.
    apply register_call_inv in E as [_ [(Hne & _)|(_ & -> & _)]].
    + simpl in Hne. lia.
    + simpl. unfold flushes_between.
      match goal with
      | |- context [write_file ?p ?b w] =>
          destruct (write_file_log p b w) as [_ ->]
      end. lia.
  - intros Hlen. rewrite Hbelow by lia. unfold flushes_between. simpl. lia.
  - intros Hlen. rewrite Hbelow by lia. reflexivity.
Qed.

(** C5. A [flush] that raises leaves the store object as it was: the same
    calls, cursor and pending count. A retried [flush] whose write succeeds
    then writes the whole state, every accumulated call included. *)
Theorem failed_flush_keeps_memory self w e self' w' :
  flush (self, w) = (Raise e, (self', w')) ->
  e = StorageError /\
  self' = self /\
  calls (state self') = calls (state self) /\
  get_last_crawled_block self' = get_last_crawled_block self /\
  cache_size self' = cache_size self /\
  forall w2, next_fault w2 = NoFault ->
    exists w3,
      flush (self', w2) = (Ok tt, (with_state self (state self) 0, w3)) /\
      files w3 !! pickle_file self = Some (dump (state self)).
Proof.
  intros H. apply flush_inv in H as [_ [(H & _)|(He & ->)]]; [discriminate|].
  injection He as ->. repeat split.
  intros w2 Hok. eexists. split; [apply flush_ok, Hok|].
  simpl. apply lookup_insert_eq.
Qed.

(** C7. After a [flush] that returned, and whatever calls were registered
    since without another flush, a new [PickleFileState] on the same path
    starts from the cursor and the calls the first store had at that flush,
    provided [pickle.load] reads back what [pickle.dump] wrote. *)
Theorem reload_restores_last_flush self w self1 w1 cs self2 w2 n :
  flush (self, w) = (Ok tt, (self1, w1)) ->
  after_register_calls cs (self1, w1) = (self2, w2) ->
  wlog w2 = wlog w1 ->
  load (dump (state self1)) = Some (state self1) ->
  exists self3,
    PickleFileState_init dump load (pickle_file self2) n w2 = (Ok self3, w2) /\
    state self3 = state self /\
    get_last_crawled_block self3 = get_last_crawled_block self1 /\
    calls (state self3) = calls (state self1).
Proof.
  intros Hflush Hafter Hlog Hload.
  apply flush_inv in Hflush as [_ [(_ & -> & Hfile)|(H & _)]]; [|discriminate].
  pose proof (after_register_calls_path cs (with_state self (state self) 0, w1)) as Hpath.
  pose proof (after_register_calls_world cs (with_state self (state self) 0, w1)) as Hworld.
  rewrite Hafter in Hpath, Hworld. simpl in Hpath, Hworld, Hload.
  destruct Hworld as [->|Hlt]; [|rewrite Hlog in Hlt; lia].
  unfold PickleFileState_init. rewrite Hpath, Hfile, Hload.
  eexists. split; [reflexivity|]. simpl. auto.
Qed.

(** C10. Constructing a [PickleFileState] on a path that does not exist
    writes the pickled initial state [{last_crawled_block: -1, calls: []}]
    to that path during construction, and the new store answers [-1] to
    [get_last_crawled_block]. *)
Theorem init_missing_file_writes_initial_state path n w :
  files w !! path = None ->
  next_fault w = NoFault ->
  exists self w',
    PickleFileState_init dump load path n w = (Ok self, w') /\
    files w' !! path = Some (dump initial_state) /\
    wlog w' = wlog w ++ [EvWrite path (dump initial_state)] /\
    state self = {| last_crawled_block := -1; calls := [] |} /\
    get_last_crawled_block self = -1 /\
    cache_size self = 0 /\ batch_size self = n /\ pickle_file self = path.
Proof.
  intros Hnone Hok. unfold PickleFileState_init.
  rewrite Hnone, (write_file_ok _ _ _ Hok).
  do 2 eexists. split; [reflexivity|]. simpl.
  rewrite lookup_insert_eq. repeat split.
Qed.

End StoreProperties.

(** ** The crawler *)

Section CrawlerProperties.

Variable dump : crawl_state -> list Byte.byte.
Variable decode_function_input : list pydict -> string -> result (string * pydict).

#[local] Abbreviation flush := (flush dump).
#[local] Abbreviation register_call := (register_call dump).
#[local] Abbreviation process_transaction := (process_transaction dump decode_function_input).
#[local] Abbreviation crawl := (crawl dump decode_function_input).
#[local] Abbreviation scan_step := (scan_step dump decode_function_input).
#[local] Abbreviation call_of_transaction := (call_of_transaction decode_function_input).
#[local] Abbreviation calls_of := (calls_of decode_function_input).
#[local] Abbreviation registered_calls := (registered_calls decode_function_input).
#[local] Abbreviation scan_stop := (scan_stop decode_function_input).

(** *** Traversals *)

Lemma traverse_app {A B} (f : A -> result B) xs ys :
  traverse f (xs ++ ys) =
    match traverse f xs with
    | Raise e => Raise e
    | Ok l1 =>
        match traverse f ys with
        | Raise e => Raise e
        | Ok l2 => Ok (l1 ++ l2)
        end
    end.
Proof.
  induction xs as [|x xs IH]; simpl.
  - destruct (traverse f ys); reflexivity.
  - destruct (f x); [|reflexivity]. rewrite IH.
    destruct (traverse f xs); [|reflexivity].
    destruct (traverse f ys); reflexivity.
Qed.

Lemma traverse_app_ok {A B} (f : A -> result B) xs ys l :
  traverse f (xs ++ ys) = Ok l ->
  exists l1 l2, traverse f xs = Ok l1 /\ traverse f ys = Ok l2 /\ l = l1 ++ l2.
Proof.
  rewrite traverse_app.
  destruct (traverse f xs) as [l1|]; [|discriminate].
  destruct (traverse f ys) as [l2|]; [|discriminate].
  intros [= <-]. eauto.
Qed.

Lemma concat_traverse_app_ok {A B} (f : A -> result (list B)) xs ys l :
  concat_traverse f (xs ++ ys) = Ok l ->
  exists l1 l2,
    concat_traverse f xs = Ok l1 /\ concat_traverse f ys = Ok l2 /\ l = l1 ++ l2.
Proof.
  unfold concat_traverse.
  destruct (traverse f (xs ++ ys)) as [ls|] eqn:E; [|discriminate].
  apply traverse_app_ok in E as (ls1 & ls2 & -> & -> & ->).
  intros [= <-]. exists (concat ls1), (concat ls2).
  rewrite concat_app. auto.
Qed.

Lemma elem_of_concat_traverse {A B} (f : A -> result (list B)) xs l y :
  concat_traverse f xs = Ok l ->
  y ∈ l <-> exists x lx, x ∈ xs /\ f x = Ok lx /\ y ∈ lx.
Proof.
  unfold concat_traverse.
  destruct (traverse f xs) as [ls|] eqn:E; [|discriminate].
  intros [= <-]. revert ls E.
  induction xs as [|x xs IH]; intros ls; simpl.
  - intros [= <-]. simpl. split.
    + intros H. inversion H.
    + intros (x & lx & H & _). inversion H.
  - destruct (f x) as [lx|] eqn:Ex; [|discriminate].
    destruct (traverse f xs) as [ls'|]; [|discriminate].
    intros [= <-]. simpl. rewrite elem_of_app, (IH ls' eq_refl). split.
    + intros [H|(x' & lx' & H1 & H2 & H3)].
      * exists x, lx. split; [left|]; auto.
      * exists x', lx'. split; [right|]; auto.
    + intros (x' & lx' & H1 & H2 & H3).
      apply elem_of_cons in H1 as [->|H1].
      * left. congruence.
      * right. eauto.
Qed.

(** *** The scan loop is the loop over the visit order *)

Lemma for_each_traverse {A B} (g : A -> result (list B))
    (body : A -> M unit) (P : B -> M unit) xs ls :
  (forall x l, g x = Ok l -> forall s, body x s = for_each l P s) ->
  traverse g xs = Ok ls ->
  forall s, for_each xs body s = for_each (concat ls) P s.
Proof.
  intros Hbody. revert ls. induction xs as [|x xs IH]; intros ls; simpl.
  - intros [= <-] s. reflexivity.
  - destruct (g x) as [l|] eqn:Ex; [|discriminate].
    destruct (traverse g xs) as [ls'|]; [|discriminate].
    intros [= <-] s. simpl. rewrite for_each_app.
    apply bind_ext; [apply Hbody, Ex | intros _ s'; apply IH; reflexivity].
Qed.

Lemma process_transaction_call self tx s :
  process_transaction self tx s =
    match call_of_transaction self tx with
    | Ok c => register_call c s
    | Raise e => (Raise e, s)
    end.
Proof.
  unfold process_transaction, call_of_transaction, bind, lift.
  destruct (decode_function_input _ _) as [[name args]|e]; [|reflexivity].
  simpl. destruct (get_block_timestamp _ _); reflexivity.
Qed.

Lemma for_each_process self txs cs :
  calls_of self txs = Ok cs ->
  forall s, for_each txs (process_transaction self) s = for_each cs register_call s.
Proof.
  unfold calls_of.
  revert cs. induction txs as [|tx txs IH]; intros cs; simpl.
  - intros [= <-] s. reflexivity.
  - destruct (call_of_transaction self tx) as [c|] eqn:Ec; [|discriminate].
    destruct (traverse _ txs) as [cs'|]; [|discriminate].
    intros [= <-] s. simpl.
    apply bind_ext; [|intros _ s'; apply IH; reflexivity].
    rewrite process_transaction_call, Ec. reflexivity.
Qed.

Lemma for_each_map {A B} (h : A -> B) xs (body : B -> M unit) s :
  for_each (map h xs) body s = for_each xs (fun x => body (h x)) s.
Proof.
  revert s. induction xs as [|x xs IH]; intros s; simpl; [reflexivity|].
  apply bind_ext; [reflexivity | intros _ s'; apply IH].
Qed.

(** The three nested loops are one loop over the pairs. *)
Lemma crawl_flat self a b fl s :
  crawl self a b fl s =
  bind (for_each (scan_pairs self a b) (scan_step self))
       (fun _ => if fl then flush else ret tt) s.
Proof.
  unfold crawl, scan_pairs. apply bind_ext; [|reflexivity].
  generalize (py_range a (b + 1)). intros blocks. revert s.
  induction blocks as [|bn blocks IH]; intros s; simpl; [reflexivity|].
  rewrite for_each_app. apply bind_ext; [|intros _ s'; apply IH].
  rewrite bind_ret_r, for_each_map. reflexivity.
Qed.

Lemma crawl_scan self a b fl txs :
  visit_order self a b = Ok txs ->
  forall s,
    crawl self a b fl s =
    bind (for_each txs (process_transaction self))
         (fun _ => if fl then flush else ret tt) s.
Proof.
  unfold visit_order, concat_traverse.
  destruct (traverse _ _) as [ls|] eqn:E; [|discriminate].
  intros [= <-] s. rewrite crawl_flat.
  apply bind_ext; [|reflexivity].
  apply (for_each_traverse (read_pair self)); [|exact E].
  intros p l Hl s'. unfold scan_step, bind, lift. rewrite Hl. reflexivity.
Qed.

Lemma scan_pairs_split self a b c :
  a <= b + 1 -> b <= c ->
  scan_pairs self a c = scan_pairs self a b ++ scan_pairs self (b + 1) c.
Proof.
  intros Hab Hbc. unfold scan_pairs.
  rewrite (py_range_split a (b + 1) (c + 1)) by lia.
  apply flat_map_app.
Qed.

Lemma elem_of_scan_pairs self a b bn addr :
  (bn, addr) ∈ scan_pairs self a b <->
  a <= bn <= b /\ addr ∈ contract_addresses self.
Proof.
  unfold scan_pairs. rewrite list_elem_of_In, in_flat_map. split.
  - intros (bn' & Hbn & Hin). apply in_map_iff in Hin as (addr' & [= -> ->] & Haddr).
    apply list_elem_of_In, elem_of_py_range in Hbn.
    split; [lia | apply list_elem_of_In, Haddr].
  - intros [Hbn Haddr]. exists bn. split.
    + apply list_elem_of_In, elem_of_py_range. lia.
    + apply in_map, list_elem_of_In, Haddr.
Qed.

Lemma visit_order_split self a b c txs :
  a <= b + 1 -> b <= c ->
  visit_order self a c = Ok txs ->
  exists txs1 txs2,
    visit_order self a b = Ok txs1 /\
    visit_order self (b + 1) c = Ok txs2 /\
    txs = txs1 ++ txs2.
Proof.
  intros Hab Hbc. unfold visit_order.
  rewrite (scan_pairs_split self a b c) by lia.
  apply concat_traverse_app_ok.
Qed.

(** *** Registering a list of calls in one go *)

(** With no storage fault to come every invocation returns, and the file
    system changes at most at the path of the store. *)
Lemma for_each_register_no_faults cs self w :
  faults w = [] ->
  exists n w',
    for_each cs register_call (self, w) =
      (Ok tt, (with_state self (push_calls (state self) cs) n, w')) /\
    faults w' = [] /\
    (forall x, <[pickle_file self := x]> (files w')
               = <[pickle_file self := x]> (files w)).
Proof.
  revert self w. induction cs as [|c cs IH]; intros self w Hf; simpl.
  - exists (cache_size self), w. rewrite push_calls_nil, with_state_id. auto.
  - unfold bind at 1. rewrite register_call_unfold.
    destruct (cache_size self + 1 =? batch_size self).
    + rewrite flush_ok by apply no_faults_next, Hf.
      match goal with
      | |- context [for_each cs _ (?s1, ?w1)] =>
          destruct (IH s1 w1) as (n & w' & -> & Hf' & Hfiles)
      end.
      { simpl. rewrite Hf. reflexivity. }
      exists n, w'. split; [|split; [exact Hf'|]].
      * rewrite push_calls_cons. reflexivity.
      * intros x. rewrite Hfiles. simpl. apply insert_insert_eq.
    + destruct (IH (appended self c) w Hf) as (n & w' & -> & Hf' & Hfiles).
      exists n, w'. split; [|split; [exact Hf'|exact Hfiles]].
      rewrite push_calls_cons. reflexivity.
Qed.

(** Whatever stops the loop over a list of transactions, the calls in
    memory are the old ones followed by the records of a prefix of the
    list, the whole list when nothing was raised. *)
Lemma for_each_process_inv self txs st w r st' w' :
  for_each txs (process_transaction self) (st, w) = (r, (st', w')) ->
  exists txs1 cs,
    txs1 `prefix_of` txs /\
    calls_of self txs1 = Ok cs /\
    st' = with_state st (push_calls (state st) cs) (cache_size st') /\
    (r = Ok tt -> txs1 = txs).
Proof.
  revert st w. induction txs as [|tx txs IH]; intros st w; simpl.
  - intros [= <- <- <-]. exists [], []. split; [reflexivity|].
    split; [reflexivity|]. rewrite push_calls_nil, with_state_id. auto.
  - unfold bind at 1. rewrite process_transaction_call.
    destruct (call_of_transaction self tx) as [c|e] eqn:Ec.
    + destruct (register_call c (st, w)) as [[[]|e] [st1 w1]] eqn:E;
        apply register_call_inv in E as [Hst1 _].
      * intros H. apply IH in H as (txs1 & cs & Hpre & Hcs & Hst' & Hok).
        exists (tx :: txs1), (c :: cs).
        split; [apply prefix_cons, Hpre|].
        split; [unfold calls_of in *; simpl; rewrite Ec, Hcs; reflexivity|].
        split; [|intros Hr; f_equal; auto].
        rewrite Hst', Hst1. rewrite push_calls_cons. reflexivity.
      * intros [= <- <- <-]. exists [tx], [c].
        split; [apply prefix_cons, prefix_nil|].
        split; [unfold calls_of; simpl; rewrite Ec; reflexivity|].
        split; [|discriminate].
        rewrite push_calls_cons, push_calls_nil. exact Hst1.
    + intros [= <- <- <-]. exists [], [].
      split; [apply prefix_nil|]. split; [reflexivity|].
      rewrite push_calls_nil, with_state_id. split; [reflexivity|discriminate].
Qed.

Lemma concat_traverse_cons {A B} (f : A -> result (list B)) x xs l t :
  f x = Ok l -> concat_traverse f xs = Ok t ->
  concat_traverse f (x :: xs) = Ok (l ++ t).
Proof.
  unfold concat_traverse. simpl. intros ->.
  destruct (traverse f xs); [|discriminate]. intros [= <-]. reflexivity.
Qed.

(** The same for the loop over the pairs: the transactions processed are a
    prefix of those the reads give before one of them raises. *)
Lemma for_each_scan_step_inv self pairs st w r st' w' :
  for_each pairs (scan_step self) (st, w) = (r, (st', w')) ->
  exists txs cs,
    txs `prefix_of` concat_until_raise (read_pair self) pairs /\
    calls_of self txs = Ok cs /\
    st' = with_state st (push_calls (state st) cs) (cache_size st') /\
    (r = Ok tt -> concat_traverse (read_pair self) pairs = Ok txs).
Proof.
  revert st w. induction pairs as [|p pairs IH]; intros st w; simpl.
  - intros [= <- <- <-]. exists [], []. split; [reflexivity|].
    split; [reflexivity|]. rewrite push_calls_nil, with_state_id. auto.
  - unfold bind at 1. unfold scan_step at 1. unfold bind at 1. unfold lift.
    destruct (read_pair self p) as [l|e] eqn:Er.
    + destruct (for_each l (process_transaction self) (st, w))
        as [[[]|e] [st1 w1]] eqn:E1;
        apply for_each_process_inv in E1 as (ta & ca & Hpa & Hca & Hst1 & Hoka).
      * specialize (Hoka eq_refl). subst ta.
        intros H. apply IH in H as (tb & cb & Hpb & Hcb & Hst' & Hokb).
        exists (l ++ tb), (ca ++ cb).
        split; [apply prefix_app, Hpb|].
        split; [unfold calls_of in *; rewrite traverse_app, Hca, Hcb; reflexivity|].
        split; [|intros Hr; apply concat_traverse_cons; auto].
        rewrite Hst', Hst1. simpl. rewrite push_calls_app. reflexivity.
      * intros [= <- <- <-]. exists ta, ca.
        split; [apply prefix_app_r, Hpa|]. split; [exact Hca|].
        split; [exact Hst1|discriminate].
    + intros [= <- <- <-]. exists [], [].
      split; [apply prefix_nil|]. split; [reflexivity|].
      rewrite push_calls_nil, with_state_id. split; [reflexivity|discriminate].
Qed.

(** A crawl whose reads, decodings and writes all succeed. *)
Lemma crawl_no_faults self a b fl txs cs st w :
  faults w = [] ->
  visit_order self a b = Ok txs ->
  calls_of self txs = Ok cs ->
  exists n w',
    crawl self a b fl (st, w) =
      (Ok tt, (with_state st (push_calls (state st) cs) n, w')) /\
    faults w' = [] /\
    (forall x, <[pickle_file st := x]> (files w')
               = <[pickle_file st := x]> (files w)) /\
    (fl = true ->
       n = 0 /\
       files w' = <[pickle_file st := dump (push_calls (state st) cs)]> (files w)).
Proof.
  intros Hf Hv Hc.
  rewrite (crawl_scan _ _ _ _ _ Hv). unfold bind.
  rewrite (for_each_process _ _ _ Hc).
  destruct (for_each_register_no_faults cs st w Hf) as (n & w1 & -> & Hf1 & Hfiles).
  destruct fl.
  - rewrite flush_ok by apply no_faults_next, Hf1. simpl.
    eexists _, _. split; [reflexivity|]. simpl.
    split; [rewrite Hf1; reflexivity|].
    split; [intros x; rewrite insert_insert_eq; apply Hfiles|].
    intros _. split; [reflexivity|]. apply Hfiles.
  - exists n, w1. split; [reflexivity|]. split; [exact Hf1|].
    split; [exact Hfiles|discriminate].
Qed.

Lemma calls_of_block_numbers self txs cs :
  calls_of self txs = Ok cs ->
  map block_number cs = map tx_block_number txs.
Proof.
  unfold calls_of.
  revert cs. induction txs as [|tx txs IH]; intros cs; simpl.
  - intros [= <-]. reflexivity.
  - destruct (call_of_transaction self tx) as [c|] eqn:Ec; [|discriminate].
    destruct (traverse _ txs) as [cs'|]; [|discriminate].
    intros [= <-]. simpl. f_equal; [|apply IH; reflexivity].
    unfold call_of_transaction in Ec.
    destruct (decode_function_input _ _) as [[name args]|]; [|discriminate].
    destruct (get_block_timestamp _ _); [|discriminate].
    injection Ec as <-. reflexivity.
Qed.

(** With the web3 reader the visit order holds the transactions of the
    blocks of the range that go to a watched address. *)
Lemma web3_visit_order_elem self w3 a b txs tx :
  ethereum_state_provider self = Web3StateProvider w3 ->
  visit_order self a b = Ok txs ->
  tx ∈ txs <->
  exists bn blk, a <= bn <= b /\ eth_get_block w3 bn = Ok blk /\
    tx ∈ transactions blk /\ tx_to tx ∈ contract_addresses self.
Proof.
  intros Hp Hv. unfold visit_order in Hv.
  rewrite (elem_of_concat_traverse _ _ _ _ Hv). unfold read_pair. rewrite Hp.
  split.
  - intros ([bn addr] & la & Hpair & Hla & Htx).
    apply elem_of_scan_pairs in Hpair as [Hbn Haddr]. simpl in Hla.
    destruct (eth_get_block w3 bn) as [blk|] eqn:Eb; [|discriminate].
    injection Hla as <-. apply list_elem_of_In, filter_In in Htx as [Htx Hto].
    apply bool_decide_eq_true in Hto. subst addr.
    exists bn, blk. repeat split; try lia; try assumption.
    apply list_elem_of_In, Htx.
  - intros (bn & blk & Hbn & Hblk & Htx & Hto).
    exists (bn, tx_to tx). eexists.
    split; [apply elem_of_scan_pairs; split; [lia | exact Hto]|].
    simpl. rewrite Hblk. split; [reflexivity|].
    apply list_elem_of_In, filter_In. split; [apply list_elem_of_In, Htx|].
    apply bool_decide_eq_true. reflexivity.
Qed.

(** C1, as the code has it. A transaction whose payload the decoder
    rejects gets no call registered, and the exception of the decoder goes
    out of [process_transaction] and out of [crawl]: the calls of the
    transactions visited before it stay registered, nothing after it in the
    visit order is processed, and the final flush does not happen. *)
Theorem decode_error_aborts_crawl self a b fl pre tx post cs e st w :
  faults w = [] ->
  visit_order self a b = Ok (pre ++ tx :: post) ->
  calls_of self pre = Ok cs ->
  decode_function_input (contract_abi self) (tx_data tx) = Raise e ->
  exists s1,
    for_each cs register_call (st, w) = (Ok tt, s1) /\
    state (fst s1) = push_calls (state st) cs /\
    process_transaction self tx s1 = (Raise e, s1) /\
    crawl self a b fl (st, w) = (Raise e, s1).
Proof.
  intros Hf Hv Hc Hd.
  assert (Htx : forall s, process_transaction self tx s = (Raise e, s)).
  { intros s. rewrite process_transaction_call.
    unfold call_of_transaction. rewrite Hd. reflexivity. }
  destruct (for_each_register_no_faults cs st w Hf) as (n & w1 & Hreg & _ & _).
  eexists. split; [exact Hreg|]. split; [reflexivity|]. split; [apply Htx|].
  rewrite (crawl_scan _ _ _ _ _ Hv). unfold bind at 1.
  rewrite for_each_app. unfold bind at 1.
  rewrite (for_each_process _ _ _ Hc), Hreg. simpl. unfold bind at 1.
  rewrite Htx. reflexivity.
Qed.

(** What a crawl with a final flush leaves when every read, decoding and
    write succeeds: the calls of the visited transactions appended to the
    stored ones and pickled, and as cursor the block number of the last
    visited transaction, or the cursor as it was when no transaction was
    visited. With the web3 reader the visited transactions are those of the
    blocks [a..b] sent to a watched address. *)
Theorem crawl_flush_persists_visited_calls self a b txs cs st w :
  faults w = [] ->
  visit_order self a b = Ok txs ->
  calls_of self txs = Ok cs ->
  exists st' w',
    crawl self a b true (st, w) = (Ok tt, (st', w')) /\
    calls (state st') = calls (state st) ++ map asdict cs /\
    get_last_crawled_block st' =
      List.last (map tx_block_number txs) (get_last_crawled_block st) /\
    files w' !! pickle_file st = Some (dump (state st')) /\
    cache_size st' = 0 /\
    (forall w3, ethereum_state_provider self = Web3StateProvider w3 ->
       forall tx, tx ∈ txs <->
         exists bn blk, a <= bn <= b /\ eth_get_block w3 bn = Ok blk /\
           tx ∈ transactions blk /\ tx_to tx ∈ contract_addresses self).
Proof.
  intros Hf Hv Hc.
  destruct (crawl_no_faults self a b true txs cs st w Hf Hv Hc)
    as (n & w' & Hrun & _ & _ & Hfl).
  destruct (Hfl eq_refl) as [-> Hfiles].
  eexists _, w'. split; [exact Hrun|]. simpl.
  split; [reflexivity|].
  split; [unfold get_last_crawled_block; simpl;
          rewrite (calls_of_block_numbers _ _ _ Hc); reflexivity|].
  split; [rewrite Hfiles; apply lookup_insert_eq|].
  split; [reflexivity|].
  intros w3 Hp tx. apply web3_visit_order_elem; assumption.
Qed.

(** C6. For [a <= b < c], crawling [a..b] and then [b+1..c] with a final
    flush leaves the same store (cursor, calls in the same order) and the
    same files as crawling [a..c] with a final flush. *)
Theorem crawl_resumption self a b c f1 txs cs st w :
  a <= b -> b < c ->
  faults w = [] ->
  visit_order self a c = Ok txs ->
  calls_of self txs = Ok cs ->
  exists st1 w1 st2 w2 w2',
    crawl self a b f1 (st, w) = (Ok tt, (st1, w1)) /\
    crawl self (b + 1) c true (st1, w1) = (Ok tt, (st2, w2)) /\
    crawl self a c true (st, w) = (Ok tt, (st2, w2')) /\
    files w2' = files w2 /\
    get_last_crawled_block st2 =
      List.last (map block_number cs) (get_last_crawled_block st) /\
    calls (state st2) = calls (state st) ++ map asdict cs.
Proof.
  intros Hab Hbc Hf Hv Hc.
  destruct (visit_order_split self a b c txs) as (txs1 & txs2 & Hv1 & Hv2 & ->);
    [lia | lia | exact Hv |].
  apply traverse_app_ok in Hc as (cs1 & cs2 & Hc1 & Hc2 & ->).
  destruct (crawl_no_faults self a b f1 txs1 cs1 st w Hf Hv1 Hc1)
    as (n1 & w1 & Hrun1 & Hf1 & Hfiles1 & _).
  destruct (crawl_no_faults self (b + 1) c true txs2 cs2
              (with_state st (push_calls (state st) cs1) n1) w1 Hf1 Hv2 Hc2)
    as (n2 & w2 & Hrun2 & _ & _ & Hfl2).
  destruct (Hfl2 eq_refl) as [-> Hfiles2].
  destruct (crawl_no_faults self a c true (txs1 ++ txs2) (cs1 ++ cs2) st w Hf Hv)
    as (n & w2' & Hrun & _ & _ & Hfl).
  { unfold calls_of. rewrite traverse_app.
    unfold calls_of in Hc1, Hc2. rewrite Hc1, Hc2. reflexivity. }
  destruct (Hfl eq_refl) as [-> Hfiles].
  simpl in Hrun2, Hfiles2. rewrite <- push_calls_app in Hrun2, Hfiles2.
  exists (with_state st (push_calls (state st) cs1) n1), w1,
         (with_state st (push_calls (state st) (cs1 ++ cs2)) 0), w2, w2'.
  split; [exact Hrun1|]. split; [exact Hrun2|]. split; [exact Hrun|].
  split; [rewrite Hfiles, Hfiles2; symmetry; apply Hfiles1|].
  split; reflexivity.
Qed.

(** C8. Crawling the same range a second time appends the same records
    once more: nothing is de-duplicated. *)
Theorem recrawl_appends_duplicates self a b f1 f2 txs cs st w :
  faults w = [] ->
  visit_order self a b = Ok txs ->
  calls_of self txs = Ok cs ->
  exists st1 w1 st2 w2,
    crawl self a b f1 (st, w) = (Ok tt, (st1, w1)) /\
    crawl self a b f2 (st1, w1) = (Ok tt, (st2, w2)) /\
    calls (state st1) = calls (state st) ++ map asdict cs /\
    calls (state st2) = calls (state st1) ++ map asdict cs.
Proof.
  intros Hf Hv Hc.
  destruct (crawl_no_faults self a b f1 txs cs st w Hf Hv Hc)
    as (n1 & w1 & Hrun1 & Hf1 & _).
  destruct (crawl_no_faults self a b f2 txs cs
              (with_state st (push_calls (state st) cs) n1) w1 Hf1 Hv Hc)
    as (n2 & w2 & Hrun2 & _).
  eexists _, w1, _, w2. split; [exact Hrun1|]. split; [exact Hrun2|].
  split; reflexivity.
Qed.

(** *** The scan, transaction by transaction *)

Lemma results_until_raise_app {A B} (f : A -> result B) xs ys :
  results_until_raise f (xs ++ ys) =
  match first_raise f xs with
  | Some _ => results_until_raise f xs
  | None => results_until_raise f xs ++ results_until_raise f ys
  end.
Proof.
  induction xs as [|x xs IH]; simpl; [reflexivity|].
  destruct (f x); [|reflexivity]. rewrite IH.
  destruct (first_raise f xs); reflexivity.
Qed.

Lemma first_raise_app {A B} (f : A -> result B) xs ys :
  first_raise f (xs ++ ys) =
  match first_raise f xs with
  | Some e => Some e
  | None => first_raise f ys
  end.
Proof.
  induction xs as [|x xs IH]; simpl; [reflexivity|].
  destruct (f x); [exact IH | reflexivity].
Qed.

Lemma first_raise_none {A B} (f : A -> result B) xs :
  first_raise f xs = None <-> traverse f xs = Ok (results_until_raise f xs).
Proof.
  induction xs as [|x xs IH]; simpl; [tauto|].
  destruct (f x) as [y|e]; [|split; discriminate].
  rewrite IH. destruct (traverse f xs) as [ys|e]; split; try discriminate.
  - intros [= <-]. reflexivity.
  - intros [= H]. rewrite <- H. reflexivity.
Qed.

Lemma first_raise_concat_none {A B} (f : A -> result (list B)) xs :
  first_raise f xs = None <-> concat_traverse f xs = Ok (concat_until_raise f xs).
Proof.
  unfold concat_traverse. induction xs as [|x xs IH]; simpl; [tauto|].
  destruct (f x) as [l|e]; [|split; discriminate].
  rewrite IH. destruct (traverse f xs) as [ls|e]; split; try discriminate.
  - intros [= <-]. reflexivity.
  - simpl. intros [= H]. apply app_inv_head in H. rewrite <- H. reflexivity.
Qed.

(** The loop over a list of transactions registers the records of the
    transactions before the first one without a record, one by one, and
    then raises what that one raises. *)
Lemma for_each_process_until self txs s :
  for_each txs (process_transaction self) s =
  bind (for_each (results_until_raise (call_of_transaction self) txs) register_call)
       (fun _ => stop_with (first_raise (call_of_transaction self) txs)) s.
Proof.
  revert s. induction txs as [|tx txs IH]; intros s; simpl; [reflexivity|].
  destruct (call_of_transaction self tx) as [c|e] eqn:Ec.
  - simpl. rewrite bind_assoc.
    apply bind_ext; [|intros _ s'; apply IH].
    rewrite process_transaction_call, Ec. reflexivity.
  - unfold bind at 1. rewrite process_transaction_call, Ec. reflexivity.
Qed.

(** The same for the loop over the pairs of block and address. *)
Lemma for_each_scan_step_until self pairs s :
  for_each pairs (scan_step self) s =
  bind (for_each (results_until_raise (call_of_transaction self)
                    (concat_until_raise (read_pair self) pairs)) register_call)
       (fun _ => stop_with
          match first_raise (call_of_transaction self)
                            (concat_until_raise (read_pair self) pairs) with
          | Some e => Some e
          | None => first_raise (read_pair self) pairs
          end) s.
Proof.
  revert s. induction pairs as [|p pairs IH]; intros s; simpl; [reflexivity|].
  unfold bind at 1. unfold scan_step at 1. unfold bind at 1. unfold lift at 1.
  destruct (read_pair self p) as [l|e] eqn:Er; [|reflexivity].
  rewrite results_until_raise_app, first_raise_app, for_each_process_until.
  unfold bind at 1.
  destruct (first_raise (call_of_transaction self) l) as [e|].
  - unfold bind.
    destruct (for_each (results_until_raise (call_of_transaction self) l)
                       register_call s) as [[[]|e'] s1]; reflexivity.
  - unfold bind at 1. rewrite for_each_app. unfold bind at 1.
    destruct (for_each (results_until_raise (call_of_transaction self) l)
                       register_call s) as [[[]|e'] s1]; [|reflexivity].
    simpl. apply IH.
Qed.

(** C9. Every crawl hands to the store, by one [register_call] after the
    other, the records of the transactions in the order of the visit
    (blocks ascending, addresses in the order of the configured list,
    transactions as the reader returns them), up to the first transaction
    or read that raises; it then raises that exception, or else flushes
    when asked. The calls in memory are the old ones followed by these, in
    that order, and after a final flush the file holds the pickle of the
    same list. *)
Theorem crawl_registers_in_visit_order self a b fl st w :
  let cs := registered_calls self a b in
  let stop := scan_stop self a b in
  crawl self a b fl (st, w) =
    bind (for_each cs register_call)
         (fun _ => match stop with
                   | Some e => lift (Raise e)
                   | None => if fl then flush else ret tt
                   end) (st, w) /\
  (stop = None <->
     visit_order self a b = Ok (visited self a b) /\
     calls_of self (visited self a b) = Ok cs) /\
  (faults w = [] ->
     exists n w1,
       for_each cs register_call (st, w) =
         (Ok tt, (with_state st (push_calls (state st) cs) n, w1)) /\
       calls (push_calls (state st) cs) = calls (state st) ++ map asdict cs /\
       match stop with
       | Some e =>
           crawl self a b fl (st, w) =
             (Raise e, (with_state st (push_calls (state st) cs) n, w1))
       | None =>
           exists n' w',
             crawl self a b fl (st, w) =
               (Ok tt, (with_state st (push_calls (state st) cs) n', w')) /\
             (fl = true ->
                files w' !! pickle_file st
                  = Some (dump (push_calls (state st) cs)))
       end).
Proof.
  intros cs stop.
  assert (Hrun : crawl self a b fl (st, w) =
    bind (for_each cs register_call)
         (fun _ => match stop with
                   | Some e => lift (Raise e)
                   | None => if fl then flush else ret tt
                   end) (st, w)).
  { rewrite crawl_flat. unfold bind at 1. rewrite for_each_scan_step_until.
    fold (visited self a b). fold (registered_calls self a b).
    fold (scan_stop self a b). fold cs. fold stop.
    unfold bind.
    destruct (for_each cs register_call (st, w)) as [[[]|e] s1]; [|reflexivity].
    destruct stop; reflexivity. }
  split; [exact Hrun|]. split.
  - unfold stop, scan_stop, cs, registered_calls, visit_order, visited, calls_of.
    rewrite <- first_raise_concat_none, <- first_raise_none.
    destruct (first_raise (call_of_transaction self) _); split;
      try tauto; try discriminate; intros [_ H]; discriminate.
  - intros Hf.
    destruct (for_each_register_no_faults cs st w Hf) as (n & w1 & Hreg & Hf1 & _).
    exists n, w1. split; [exact Hreg|]. split; [reflexivity|].
    rewrite Hrun. unfold bind. rewrite Hreg.
    destruct stop as [e|]; [reflexivity|].
    destruct fl.
    + rewrite flush_ok by apply no_faults_next, Hf1.
      eexists _, _. split; [reflexivity|]. intros _. simpl.
      apply lookup_insert_eq.
    + exists n, w1. split; [reflexivity | discriminate].
Qed.

End CrawlerProperties.

(** ** The properties on the sample chain *)

Example sample_visit_order :
  visit_order sample_crawler 100 102 = Ok [tx_transfer; tx_unknown; tx_late].
Proof. reflexivity. Qed.

Example sample_scenario :
  let r := crawl sample_dump sample_decode sample_crawler 100 100 true
                 (sample_store 100, sample_world) in
  fst r = Ok tt /\
  state (fst (snd r)) = sample_state /\
  files (snd (snd r)) !! "state.pickle"%string = Some (sample_dump sample_state).
Proof. vm_compute. auto. Qed.

Lemma register_calls_cursor_non_decreasing_witness :
  Sorted Z.le (map block_number sample_calls) /\
  Sorted Z.le
    (map (fun s' : PickleFileState * world => get_last_crawled_block (fst s'))
         (register_calls sample_dump sample_calls (sample_store 2, sample_world))).
Proof.
  assert (H : Sorted Z.le (map block_number sample_calls)).
  { repeat (constructor; try (simpl; lia)). }
  split; [exact H|].
  apply (register_calls_cursor_non_decreasing sample_dump sample_calls
           (sample_store 2, sample_world) H).
Defined.

Lemma auto_flush_exactly_at_batch_size_witness :
  (freshly_constructed sample_dump sample_load default_batch_size
     (sample_store default_batch_size) \/
   just_flushed sample_dump default_batch_size (sample_store default_batch_size)) /\
  1 <= default_batch_size /\
  flushes_between sample_world
    (snd (after_register_calls sample_dump (repeat sample_call 100)
            (sample_store default_batch_size, sample_world))) = 1 /\
  flushes_between sample_world
    (snd (after_register_calls sample_dump (repeat sample_call 99)
            (sample_store default_batch_size, sample_world))) = 0.
Proof.
  assert (H : freshly_constructed sample_dump sample_load default_batch_size
                (sample_store default_batch_size) \/
              just_flushed sample_dump default_batch_size
                (sample_store default_batch_size)).
  { left. exists "state.pickle"%string, sample_world,
      (snd (PickleFileState_init sample_dump sample_load "state.pickle"
              default_batch_size sample_world)).
    vm_compute. reflexivity. }
  assert (Hn : 1 <= default_batch_size) by (unfold default_batch_size; lia).
  split; [exact H|]. split; [exact Hn|]. split.
  - apply (auto_flush_exactly_at_batch_size sample_dump sample_load
             default_batch_size (sample_store default_batch_size)
             (repeat sample_call 100) sample_world H Hn).
    reflexivity.
  - apply (auto_flush_exactly_at_batch_size sample_dump sample_load
             default_batch_size (sample_store default_batch_size)
             (repeat sample_call 99) sample_world H Hn).
    reflexivity.
Defined.

Lemma failed_flush_keeps_memory_witness :
  flush sample_dump (sample_store 2, failing_world) =
    (Raise StorageError,
     (sample_store 2, snd (snd (flush sample_dump (sample_store 2, failing_world))))) /\
  forall w2, next_fault w2 = NoFault ->
    exists w3,
      flush sample_dump (sample_store 2, w2) =
        (Ok tt, (with_state (sample_store 2) (state (sample_store 2)) 0, w3)) /\
      files w3 !! pickle_file (sample_store 2) =
        Some (sample_dump (state (sample_store 2))).
Proof.
  assert (H : flush sample_dump (sample_store 2, failing_world) =
    (Raise StorageError,
     (sample_store 2, snd (snd (flush sample_dump (sample_store 2, failing_world)))))).
  { vm_compute. reflexivity. }
  split; [exact H|].
  apply (failed_flush_keeps_memory sample_dump _ _ _ _ _ H).
Defined.

(** The store holds one call, is flushed, and registers a second call that
    stays in memory: the reloaded store has the one call of the flush. *)
Lemma reload_restores_last_flush_witness :
  let self := with_state (sample_store 5) sample_state 1 in
  let s1 := snd (flush sample_dump (self, sample_world)) in
  let s2 := after_register_calls sample_dump [sample_call_late] s1 in
  flush sample_dump (self, sample_world) = (Ok tt, s1) /\
  wlog (snd s2) = wlog (snd s1) /\
  sample_load (sample_dump (state (fst s1))) = Some (state (fst s1)) /\
  exists self3,
    PickleFileState_init sample_dump sample_load (pickle_file (fst s2)) 5 (snd s2)
      = (Ok self3, snd s2) /\
    state self3 = sample_state /\
    get_last_crawled_block self3 = get_last_crawled_block (fst s1) /\
    calls (state self3) = calls (state (fst s1)).
Proof.
  intros self s1 s2.
  assert (H1 : flush sample_dump (self, sample_world) = (Ok tt, (fst s1, snd s1)))
    by (vm_compute; reflexivity).
  assert (H2 : after_register_calls sample_dump [sample_call_late] (fst s1, snd s1)
               = (fst s2, snd s2)) by (vm_compute; reflexivity).
  assert (H3 : wlog (snd s2) = wlog (snd s1)) by (vm_compute; reflexivity).
  assert (H4 : sample_load (sample_dump (state (fst s1))) = Some (state (fst s1)))
    by (vm_compute; reflexivity).
  split; [vm_compute; reflexivity|]. split; [exact H3|]. split; [exact H4|].
  exact (reload_restores_last_flush sample_dump sample_load self sample_world
           (fst s1) (snd s1) [sample_call_late] (fst s2) (snd s2) 5 H1 H2 H3 H4).
Defined.

Lemma init_missing_file_writes_initial_state_witness :
  files sample_world !! "state.pickle"%string = None /\
  next_fault sample_world = NoFault /\
  exists self w',
    PickleFileState_init sample_dump sample_load "state.pickle" 100 sample_world
      = (Ok self, w') /\
    files w' !! "state.pickle"%string = Some (sample_dump initial_state) /\
    wlog w' = wlog sample_world ++ [EvWrite "state.pickle" (sample_dump initial_state)] /\
    state self = {| last_crawled_block := -1; calls := [] |} /\
    get_last_crawled_block self = -1 /\
    cache_size self = 0 /\ batch_size self = 100 /\
    pickle_file self = "state.pickle"%string.
Proof.
  assert (H1 : files sample_world !! "state.pickle"%string = None) by reflexivity.
  assert (H2 : next_fault sample_world = NoFault) by reflexivity.
  split; [exact H1|]. split; [exact H2|].
  exact (init_missing_file_writes_initial_state sample_dump sample_load
           "state.pickle" 100 sample_world H1 H2).
Defined.

(** Block 102 of the sample chain: the first transaction is not in the
    interface, so the crawl raises and the [transfer] behind it, which
    decodes, is never registered. *)
Lemma crawl_decode_error_counterexample :
  let r := crawl sample_dump sample_decode sample_crawler 102 102 true
                 (sample_store 100, sample_world) in
  visit_order sample_crawler 102 102 = Ok [tx_unknown; tx_late] /\
  sample_decode sample_abi (tx_data tx_unknown) = Raise DecodeError /\
  call_of_transaction sample_decode sample_crawler tx_late = Ok sample_call_late /\
  fst r = Raise DecodeError /\
  calls (state (fst (snd r))) = [] /\
  wlog (snd (snd r)) = [].
Proof. vm_compute. repeat split. Qed.

Lemma decode_error_aborts_crawl_witness :
  faults sample_world = [] /\
  visit_order sample_crawler 100 102 = Ok ([tx_transfer] ++ tx_unknown :: [tx_late]) /\
  calls_of sample_decode sample_crawler [tx_transfer] = Ok [sample_call] /\
  sample_decode (contract_abi sample_crawler) (tx_data tx_unknown) = Raise DecodeError /\
  exists s1,
    for_each [sample_call] (register_call sample_dump) (sample_store 100, sample_world)
      = (Ok tt, s1) /\
    state (fst s1) = push_calls (state (sample_store 100)) [sample_call] /\
    process_transaction sample_dump sample_decode sample_crawler tx_unknown s1
      = (Raise DecodeError, s1) /\
    crawl sample_dump sample_decode sample_crawler 100 102 true
          (sample_store 100, sample_world) = (Raise DecodeError, s1).
Proof.
  assert (H1 : faults sample_world = []) by reflexivity.
  assert (H2 : visit_order sample_crawler 100 102
               = Ok ([tx_transfer] ++ tx_unknown :: [tx_late])) by reflexivity.
  assert (H3 : calls_of sample_decode sample_crawler [tx_transfer] = Ok [sample_call])
    by reflexivity.
  assert (H4 : sample_decode (contract_abi sample_crawler) (tx_data tx_unknown)
               = Raise DecodeError) by reflexivity.
  split; [exact H1|]. split; [exact H2|]. split; [exact H3|]. split; [exact H4|].
  exact (decode_error_aborts_crawl sample_dump sample_decode sample_crawler
           100 102 true [tx_transfer] tx_unknown [tx_late] [sample_call]
           DecodeError (sample_store 100) sample_world H1 H2 H3 H4).
Defined.

(** C2. A store is constructed on a path that does not exist and crawls
    blocks 100 and 101 of the sample chain with a final flush. Every read,
    decoding and write succeeds, and the persisted calls are exactly the
    record of the one transaction of these blocks sent to the watched
    address; but [get_last_crawled_block] answers 100, the block of that
    call, not 101, the end of the range: only [register_call] moves the
    cursor, and block 101 holds no transaction for the watched address. *)
Theorem crawl_leaves_cursor_behind_range :
  let r := crawl sample_dump sample_decode sample_crawler 100 101 true
                 (sample_store 100, sample_world_created) in
  PickleFileState_init sample_dump sample_load "state.pickle" 100 sample_world
    = (Ok (sample_store 100), sample_world_created) /\
  visit_order sample_crawler 100 101 = Ok [tx_transfer] /\
  calls_of sample_decode sample_crawler [tx_transfer] = Ok [sample_call] /\
  fst r = Ok tt /\
  calls (state (fst (snd r))) = [asdict sample_call] /\
  files (snd (snd r)) !! "state.pickle"%string
    = Some (sample_dump (state (fst (snd r)))) /\
  get_last_crawled_block (fst (snd r)) = 100 /\
  get_last_crawled_block (fst (snd r)) <> 101.
Proof. vm_compute. repeat split. discriminate. Qed.

Lemma crawl_flush_persists_visited_calls_witness :
  faults sample_world = [] /\
  visit_order sample_crawler 100 101 = Ok [tx_transfer] /\
  calls_of sample_decode sample_crawler [tx_transfer] = Ok [sample_call] /\
  exists st' w',
    crawl sample_dump sample_decode sample_crawler 100 101 true
          (sample_store 100, sample_world) = (Ok tt, (st', w')) /\
    calls (state st') = calls (state (sample_store 100)) ++ map asdict [sample_call] /\
    get_last_crawled_block st' =
      List.last (map tx_block_number [tx_transfer])
                (get_last_crawled_block (sample_store 100)) /\
    files w' !! pickle_file (sample_store 100) = Some (sample_dump (state st')) /\
    cache_size st' = 0.
Proof.
  assert (H1 : faults sample_world = []) by reflexivity.
  assert (H2 : visit_order sample_crawler 100 101 = Ok [tx_transfer]) by reflexivity.
  assert (H3 : calls_of sample_decode sample_crawler [tx_transfer] = Ok [sample_call])
    by reflexivity.
  split; [exact H1|]. split; [exact H2|]. split; [exact H3|].
  destruct (crawl_flush_persists_visited_calls sample_dump sample_decode
              sample_crawler 100 101 [tx_transfer] [sample_call]
              (sample_store 100) sample_world H1 H2 H3)
    as (st' & w' & Hrun & Hcalls & Hcur & Hfile & Hcache & _).
  exists st', w'. auto.
Defined.

Lemma crawl_resumption_witness :
  100 <= 100 /\ 100 < 101 /\
  faults sample_world = [] /\
  visit_order sample_crawler 100 101 = Ok [tx_transfer] /\
  calls_of sample_decode sample_crawler [tx_transfer] = Ok [sample_call] /\
  exists st1 w1 st2 w2 w2',
    crawl sample_dump sample_decode sample_crawler 100 100 true
          (sample_store 100, sample_world) = (Ok tt, (st1, w1)) /\
    crawl sample_dump sample_decode sample_crawler (100 + 1) 101 true (st1, w1)
      = (Ok tt, (st2, w2)) /\
    crawl sample_dump sample_decode sample_crawler 100 101 true
          (sample_store 100, sample_world) = (Ok tt, (st2, w2')) /\
    files w2' = files w2 /\
    get_last_crawled_block st2 =
      List.last (map block_number [sample_call])
                (get_last_crawled_block (sample_store 100)) /\
    calls (state st2) = calls (state (sample_store 100)) ++ map asdict [sample_call].
Proof.
  assert (H1 : 100 <= 100) by lia.
  assert (H2 : 100 < 101) by lia.
  assert (H3 : faults sample_world = []) by reflexivity.
  assert (H4 : visit_order sample_crawler 100 101 = Ok [tx_transfer]) by reflexivity.
  assert (H5 : calls_of sample_decode sample_crawler [tx_transfer] = Ok [sample_call])
    by reflexivity.
  split; [exact H1|]. split; [exact H2|]. split; [exact H3|].
  split; [exact H4|]. split; [exact H5|].
  exact (crawl_resumption sample_dump sample_decode sample_crawler 100 100 101
           true [tx_transfer] [sample_call] (sample_store 100) sample_world
           H1 H2 H3 H4 H5).
Defined.

Lemma recrawl_appends_duplicates_witness :
  faults sample_world = [] /\
  visit_order sample_crawler 100 100 = Ok [tx_transfer] /\
  calls_of sample_decode sample_crawler [tx_transfer] = Ok [sample_call] /\
  exists st1 w1 st2 w2,
    crawl sample_dump sample_decode sample_crawler 100 100 true
          (sample_store 100, sample_world) = (Ok tt, (st1, w1)) /\
    crawl sample_dump sample_decode sample_crawler 100 100 true (st1, w1)
      = (Ok tt, (st2, w2)) /\
    calls (state st1) = calls (state (sample_store 100)) ++ map asdict [sample_call] /\
    calls (state st2) = calls (state st1) ++ map asdict [sample_call].
Proof.
  assert (H1 : faults sample_world = []) by reflexivity.
  assert (H2 : visit_order sample_crawler 100 100 = Ok [tx_transfer]) by reflexivity.
  assert (H3 : calls_of sample_decode sample_crawler [tx_transfer] = Ok [sample_call])
    by reflexivity.
  split; [exact H1|]. split; [exact H2|]. split; [exact H3|].
  exact (recrawl_appends_duplicates sample_dump sample_decode sample_crawler
           100 100 true true [tx_transfer] [sample_call] (sample_store 100)
           sample_world H1 H2 H3).
Defined.

(** Blocks 100 and 101 of the sample chain are scanned to the end and
    flushed; the crawl of blocks 100 to 102 registers the same call and
    stops at the call the interface does not describe. *)
Lemma crawl_registers_in_visit_order_witness :
  faults sample_world = [] /\
  registered_calls sample_decode sample_crawler 100 101 = [sample_call] /\
  scan_stop sample_decode sample_crawler 100 101 = None /\
  crawl sample_dump sample_decode sample_crawler 100 101 true
        (sample_store 100, sample_world) =
    bind (for_each [sample_call] (register_call sample_dump))
         (fun _ => flush sample_dump) (sample_store 100, sample_world) /\
  (exists n w',
     crawl sample_dump sample_decode sample_crawler 100 101 true
           (sample_store 100, sample_world) =
       (Ok tt, (with_state (sample_store 100)
                  (push_calls (state (sample_store 100)) [sample_call]) n, w')) /\
     files w' !! pickle_file (sample_store 100)
       = Some (sample_dump (push_calls (state (sample_store 100)) [sample_call]))) /\
  registered_calls sample_decode sample_crawler 100 102 = [sample_call] /\
  scan_stop sample_decode sample_crawler 100 102 = Some DecodeError /\
  (exists n w1,
     crawl sample_dump sample_decode sample_crawler 100 102 true
           (sample_store 100, sample_world) =
       (Raise DecodeError,
        (with_state (sample_store 100)
           (push_calls (state (sample_store 100)) [sample_call]) n, w1))).
Proof.
  assert (Hf : faults sample_world = []) by reflexivity.
  pose proof (crawl_registers_in_visit_order sample_dump sample_decode
                sample_crawler 100 101 true (sample_store 100) sample_world) as H1.
  pose proof (crawl_registers_in_visit_order sample_dump sample_decode
                sample_crawler 100 102 true (sample_store 100) sample_world) as H2.
  cbv zeta in H1, H2.
  change (registered_calls sample_decode sample_crawler 100 101)
    with [sample_call] in H1.
  change (scan_stop sample_decode sample_crawler 100 101) with (@None exn) in H1.
  change (registered_calls sample_decode sample_crawler 100 102)
    with [sample_call] in H2.
  change (scan_stop sample_decode sample_crawler 100 102)
    with (Some DecodeError) in H2.
  destruct H1 as (Hrun1 & _ & Hok1). destruct H2 as (_ & _ & Hok2).
  destruct (Hok1 Hf) as (n1 & w1 & _ & _ & n1' & w1' & Hres1 & Hfile1).
  destruct (Hok2 Hf) as (n2 & w2 & _ & _ & Hres2).
  split; [exact Hf|]. split; [reflexivity|]. split; [reflexivity|].
  split; [exact Hrun1|].
  split; [exists n1', w1'; split; [exact Hres1 | exact (Hfile1 eq_refl)]|].
  split; [reflexivity|]. split; [reflexivity|].
  exists n2, w2. exact Hres2.
Defined.

(** * Further properties of the store *)

Section Batching.

Variable dump : crawl_state -> list Byte.byte.

#[local] Abbreviation flush := (flush dump).
#[local] Abbreviation register_call := (register_call dump).
#[local] Abbreviation after_register_calls := (after_register_calls dump).

Lemma flushes_between_trans w1 w2 w3 :
  flushes_between w1 w3 = flushes_between w1 w2 + flushes_between w2 w3.
Proof. unfold flushes_between. lia. Qed.

(** One invocation with no storage fault to come, on a store whose pending
    count is below the batch size. *)
Lemma register_call_no_faults c st w :
  faults w = [] ->
  0 <= cache_size st < batch_size st ->
  exists st1 w1,
    snd (register_call c (st, w)) = (st1, w1) /\
    faults w1 = [] /\
    st1 = with_state st (state (appended st c)) ((cache_size st + 1) mod batch_size st) /\
    flushes_between w w1 = (cache_size st + 1) / batch_size st /\
    ((cache_size st + 1 < batch_size st /\ w1 = w) \/
     (cache_size st + 1 = batch_size st /\
      files w1 = <[pickle_file st := dump (state (appended st c))]> (files w))).
Proof.
  intros Hf Hc. rewrite register_call_unfold.
  destruct (Z.eqb_spec (cache_size st + 1) (batch_size st)) as [Heq|Hne].
  - rewrite flush_ok by apply no_faults_next, Hf. simpl.
    eexists _, _. split; [reflexivity|]. simpl.
    split; [rewrite Hf; reflexivity|].
    split; [rewrite Heq, Z.mod_same by lia; reflexivity|].
    split; [|right; auto].
    unfold flushes_between. simpl. rewrite length_app. simpl.
    rewrite Heq, Z.div_same by lia. lia.
  - exists (appended st c), w. split; [reflexivity|]. split; [exact Hf|].
    split; [rewrite Z.mod_small by lia; reflexivity|].
    split; [|left; split; [lia|reflexivity]].
    unfold flushes_between. rewrite Z.div_small by lia. lia.
Qed.

(** X1. With no storage fault, [k] invocations of [register_call] on a store
    holding [c0] pending calls, [c0] below the batch size [n], flush
    [(c0 + k) / n] times and leave [(c0 + k) mod n] calls pending. *)
Theorem auto_flush_period cs st w :
  faults w = [] ->
  0 <= cache_size st < batch_size st ->
  let s' := after_register_calls cs (st, w) in
  flushes_between w (snd s') =
    (cache_size st + Z.of_nat (length cs)) / batch_size st /\
  cache_size (fst s') =
    (cache_size st + Z.of_nat (length cs)) mod batch_size st /\
  state (fst s') = push_calls (state st) cs /\
  batch_size (fst s') = batch_size st.
Proof.
  revert st w. induction cs as [|c cs IH]; intros st w Hf Hc; cbv zeta.
  - simpl. rewrite Z.add_0_r, Z.div_small, Z.mod_small, push_calls_nil by lia.
    unfold flushes_between. repeat split. lia.
  - rewrite after_register_calls_cons.
    destruct (register_call_no_faults c st w Hf Hc)
      as (st1 & w1 & -> & Hf1 & Hst1 & Hfl & _).
    assert (Hc1 : 0 <= cache_size st1 < batch_size st1).
    { rewrite Hst1. simpl. apply Z.mod_pos_bound. lia. }
    destruct (IH st1 w1 Hf1 Hc1) as (H1 & H2 & H3 & H4).
    assert (Hb : batch_size st1 = batch_size st) by (rewrite Hst1; reflexivity).
    assert (Hcs : cache_size st1 = (cache_size st + 1) mod batch_size st)
      by (rewrite Hst1; reflexivity).
    rewrite Hb, Hcs in *. simpl length. rewrite Nat2Z.inj_succ.
    replace (cache_size st + Z.succ (Z.of_nat (length cs)))
      with (cache_size st + 1 + Z.of_nat (length cs)) by lia.
    split; [|split; [|split]].
    + rewrite (flushes_between_trans w w1), Hfl, H1.
      rewrite (Z.div_mod (cache_size st + 1) (batch_size st)) at 3 by lia.
      rewrite <- Z.add_assoc, Z.mul_comm, Z.div_add_l by lia. reflexivity.
    + rewrite H2. rewrite Z.add_mod_idemp_l by lia. reflexivity.
    + rewrite H3, Hst1. simpl. symmetry. apply push_calls_cons.
    + exact H4.
Qed.

Lemma appended_state st c :
  state (appended st c) = push_calls (state st) [c].
Proof. rewrite push_calls_cons, push_calls_nil. reflexivity. Qed.

(** The file holds a snapshot of the state, and the calls registered since
    are the pending ones. *)
Lemma after_register_calls_snapshot cs st w snap pending :
  faults w = [] ->
  0 <= cache_size st < batch_size st ->
  files w !! pickle_file st = Some (dump snap) ->
  state st = push_calls snap pending ->
  Z.of_nat (length pending) = cache_size st ->
  exists flushed pending',
    pending ++ cs = flushed ++ pending' /\
    files (snd (after_register_calls cs (st, w))) !! pickle_file st
      = Some (dump (push_calls snap flushed)) /\
    state (fst (after_register_calls cs (st, w))) = push_calls snap (pending ++ cs) /\
    Z.of_nat (length pending') = cache_size (fst (after_register_calls cs (st, w))) /\
    cache_size (fst (after_register_calls cs (st, w))) < batch_size st.
Proof.
  revert st w snap pending.
  induction cs as [|c cs IH]; intros st w snap pending Hf Hc Hfile Hst Hlen.
  - exists [], pending. simpl. rewrite push_calls_nil, app_nil_r.
    repeat split; auto. lia.
  - rewrite after_register_calls_cons.
    destruct (register_call_no_faults c st w Hf Hc)
      as (st1 & w1 & -> & Hf1 & Hst1 & _ & Hcase).
    assert (Hp1 : pickle_file st1 = pickle_file st) by (rewrite Hst1; reflexivity).
    assert (Hb1 : batch_size st1 = batch_size st) by (rewrite Hst1; reflexivity).
    assert (Hs1 : state st1 = push_calls snap (pending ++ [c])).
    { rewrite Hst1. simpl state. rewrite push_calls_app, <- Hst.
      apply appended_state. }
    destruct Hcase as [[Hlt ->]|[Heq Hfiles]].
    + destruct (IH st1 w snap (pending ++ [c]))
        as (flushed & pending' & H1 & H2 & H3 & H4 & H5).
      * exact Hf.
      * rewrite Hb1, Hst1. simpl. rewrite Z.mod_small by lia. lia.
      * rewrite Hp1. exact Hfile.
      * exact Hs1.
      * rewrite Hst1. simpl. rewrite Z.mod_small, length_app by lia. simpl. lia.
      * exists flushed, pending'. rewrite Hp1 in H2. rewrite Hb1 in H5.
        rewrite <- app_assoc in H1, H3. simpl in H1, H3. auto.
    + destruct (IH st1 w1 (push_calls snap (pending ++ [c])) [])
        as (flushed & pending' & H1 & H2 & H3 & H4 & H5).
      * exact Hf1.
      * rewrite Hb1, Hst1. simpl. rewrite Heq, Z.mod_same by lia. lia.
      * rewrite Hp1, Hfiles, lookup_insert_eq. f_equal. f_equal.
        rewrite push_calls_app, <- Hst. apply appended_state.
      * rewrite push_calls_nil. exact Hs1.
      * rewrite Hst1. simpl. rewrite Heq, Z.mod_same by lia. reflexivity.
      * exists ((pending ++ [c]) ++ flushed), pending'.
        rewrite Hp1 in H2. rewrite Hb1 in H5.
        simpl in H1, H3. rewrite <- push_calls_app in H2, H3.
        rewrite <- app_assoc in H3. simpl in H3.
        split; [rewrite <- !app_assoc, <- H1; reflexivity | auto].
Qed.

(** X2. From a store whose file holds its state, with a positive batch size
    and no storage fault, after any number of [register_call] invocations
    the file holds the state as it was some pending calls ago, and the
    pending calls are fewer than the batch size: what a crash can lose is
    less than one batch. *)
Theorem unflushed_calls_below_batch_size cs st w :
  faults w = [] ->
  cache_size st = 0 ->
  0 < batch_size st ->
  files w !! pickle_file st = Some (dump (state st)) ->
  let s' := after_register_calls cs (st, w) in
  exists flushed pending,
    cs = flushed ++ pending /\
    files (snd s') !! pickle_file st
      = Some (dump (push_calls (state st) flushed)) /\
    state (fst s') = push_calls (state st) cs /\
    Z.of_nat (length pending) = cache_size (fst s') /\
    cache_size (fst s') < batch_size st.
Proof.
  intros Hf Hc Hb Hfile s'.
  assert (Hrange : 0 <= cache_size st < batch_size st) by lia.
  destruct (after_register_calls_snapshot cs st w (state st) [] Hf Hrange Hfile)
    as (flushed & pending & H1 & H2 & H3 & H4 & H5).
  { rewrite push_calls_nil. reflexivity. }
  { simpl. lia. }
  exists flushed, pending. simpl in H1, H3. auto.
Qed.

(** Once the pending count has reached the batch size, the test
    [cache_size == batch_size] never holds again. *)
Lemma after_register_calls_at_or_above cs st w :
  batch_size st <= cache_size st ->
  after_register_calls cs (st, w) =
    (with_state st (push_calls (state st) cs)
                (cache_size st + Z.of_nat (length cs)), w).
Proof.
  revert st. induction cs as [|c cs IH]; intros st Hge.
  - simpl. rewrite push_calls_nil, Z.add_0_r, with_state_id. reflexivity.
  - rewrite after_register_calls_cons, register_call_unfold.
    destruct (Z.eqb_spec (cache_size st + 1) (batch_size st)) as [Heq|_]; [lia|].
    simpl snd. rewrite IH by (simpl; lia).
    rewrite push_calls_cons. unfold with_state, appended. simpl.
    do 2 f_equal. lia.
Qed.

(** X3. A store whose pending count is at or above its batch size never
    flushes on its own: every [register_call] only appends in memory. This
    is the case of a store constructed with a batch size of zero or less. *)
Theorem no_auto_flush_at_or_above_batch_size cs st w :
  batch_size st <= cache_size st ->
  let s' := after_register_calls cs (st, w) in
  snd s' = w /\
  flushes_between w (snd s') = 0 /\
  state (fst s') = push_calls (state st) cs /\
  cache_size (fst s') = cache_size st + Z.of_nat (length cs).
Proof.
  intros Hge s'. unfold s'. rewrite after_register_calls_at_or_above by exact Hge.
  simpl. unfold flushes_between. repeat split. lia.
Qed.

(** X4. When the flush inside [register_call] raises, the call stays
    appended and the pending count stays at the batch size, so no later
    [register_call] flushes: the calls pile up in memory until [flush] is
    called and returns. *)
Theorem failed_auto_flush_stops_batching c st w e st' w' :
  register_call c (st, w) = (Raise e, (st', w')) ->
  e = StorageError /\
  state st' = push_calls (state st) [c] /\
  cache_size st' = batch_size st' /\
  (forall cs w2,
     snd (after_register_calls cs (st', w2)) = w2 /\
     state (fst (after_register_calls cs (st', w2))) = push_calls (state st') cs) /\
  (forall w2, next_fault w2 = NoFault ->
     cache_size (fst (snd (flush (st', w2)))) = 0).
Proof.
  intros H.
  apply register_call_inv in H
    as [Hst' [(_ & H & _)|(Heq & _ & [(H & _)|(He & Hc)])]]; try discriminate.
  injection He as ->.
  assert (Hb : batch_size st' = batch_size st) by (rewrite Hst'; reflexivity).
  split; [reflexivity|].
  split; [rewrite Hst'; simpl; apply appended_state|].
  split; [lia|].
  split.
  - intros cs w2. rewrite after_register_calls_at_or_above by lia.
    split; reflexivity.
  - intros w2 Hok. rewrite flush_ok by exact Hok. reflexivity.
Qed.

End Batching.

(** * Further properties of the crawler *)

Section Scanning.

Variable dump : crawl_state -> list Byte.byte.
Variable decode_function_input : list pydict -> string -> result (string * pydict).

#[local] Abbreviation flush := (flush dump).
#[local] Abbreviation register_call := (register_call dump).
#[local] Abbreviation process_transaction := (process_transaction dump decode_function_input).
#[local] Abbreviation crawl := (crawl dump decode_function_input).
#[local] Abbreviation scan_step := (scan_step dump decode_function_input).
#[local] Abbreviation call_of_transaction := (call_of_transaction decode_function_input).
#[local] Abbreviation calls_of := (calls_of decode_function_input).

Lemma scan_pairs_no_address self a b :
  contract_addresses self = [] -> scan_pairs self a b = [].
Proof.
  intros H. unfold scan_pairs. rewrite H.
  induction (py_range a (b + 1)) as [|bn l IH]; [reflexivity | exact IH].
Qed.

Lemma scan_pairs_empty_range self a b :
  b < a -> scan_pairs self a b = [].
Proof.
  intros H. unfold scan_pairs, py_range.
  replace (Z.to_nat (b + 1 - a)) with 0%nat by lia. reflexivity.
Qed.

(** X5. When the range is empty ([to_block < from_block]) or no address is
    watched, [crawl] reads nothing from the chain and registers nothing:
    all it does is the final flush, when asked. The reader is not
    consulted, so this holds even for a reader whose every read raises. *)
Theorem crawl_nothing_to_scan self a b fl s :
  b < a \/ contract_addresses self = [] ->
  crawl self a b fl s = (if fl then flush else ret tt) s /\
  (fl = false -> crawl self a b fl s = (Ok tt, s)).
Proof.
  intros H.
  assert (Hp : scan_pairs self a b = []).
  { destruct H; [apply scan_pairs_empty_range | apply scan_pairs_no_address];
      assumption. }
  assert (Hrun : crawl self a b fl s = (if fl then flush else ret tt) s).
  { rewrite (crawl_flat dump decode_function_input), Hp. reflexivity. }
  split; [exact Hrun|]. intros ->. exact Hrun.
Qed.

Lemma for_each_scan_step_ok self pairs txs s :
  concat_traverse (read_pair self) pairs = Ok txs ->
  for_each pairs (scan_step self) s = for_each txs (process_transaction self) s.
Proof.
  unfold concat_traverse.
  destruct (traverse (read_pair self) pairs) as [ls|] eqn:E; [|discriminate].
  intros [= <-].
  apply (for_each_traverse (read_pair self)); [|exact E].
  intros p l Hl s'. unfold scan_step, bind, lift. rewrite Hl. reflexivity.
Qed.

(** X6. An exception raised by [get_transactions_to_address] leaves [crawl]
    as it is: the calls of the pairs read before stay registered, nothing
    further is read, and the final flush does not happen. *)
Theorem reader_error_aborts_crawl self a b fl pre p post txs cs e st w :
  faults w = [] ->
  scan_pairs self a b = pre ++ p :: post ->
  concat_traverse (read_pair self) pre = Ok txs ->
  calls_of self txs = Ok cs ->
  read_pair self p = Raise e ->
  exists s1,
    for_each cs register_call (st, w) = (Ok tt, s1) /\
    state (fst s1) = push_calls (state st) cs /\
    crawl self a b fl (st, w) = (Raise e, s1).
Proof.
  intros Hf Hpairs Hpre Hcs He.
  destruct (for_each_register_no_faults dump cs st w Hf) as (n & w1 & Hreg & _ & _).
  eexists. split; [exact Hreg|]. split; [reflexivity|].
  rewrite (crawl_flat dump decode_function_input), Hpairs. unfold bind at 1.
  rewrite for_each_app. unfold bind at 1.
  rewrite (for_each_scan_step_ok _ _ _ _ Hpre).
  rewrite (for_each_process dump decode_function_input _ _ _ Hcs), Hreg.
  simpl. unfold bind at 1. unfold scan_step at 1. unfold bind, lift.
  rewrite He. reflexivity.
Qed.

(** What a crawl leaves in memory, whatever ends it. *)
Lemma crawl_inv self a b fl st w r st' w' :
  crawl self a b fl (st, w) = (r, (st', w')) ->
  exists txs cs,
    txs `prefix_of` visited self a b /\
    calls_of self txs = Ok cs /\
    state st' = push_calls (state st) cs.
Proof.
  rewrite (crawl_flat dump decode_function_input). unfold bind.
  destruct (for_each (scan_pairs self a b) (scan_step self) (st, w))
    as [[[]|e] [st1 w1]] eqn:E;
    apply for_each_scan_step_inv in E as (txs & cs & Hpre & Hcs & Hst1 & _);
    intros Hrun; exists txs, cs; (split; [exact Hpre|]); (split; [exact Hcs|]).
  - destruct fl.
    + apply flush_inv in Hrun as [_ [(_ & -> & _)|(_ & ->)]];
        rewrite Hst1; reflexivity.
    + injection Hrun as _ <- _. rewrite Hst1. reflexivity.
  - injection Hrun as _ <- _. rewrite Hst1. reflexivity.
Qed.

Lemma elem_of_concat_until_raise {A B} (f : A -> result (list B)) xs y :
  y ∈ concat_until_raise f xs ->
  exists x lx, x ∈ xs /\ f x = Ok lx /\ y ∈ lx.
Proof.
  induction xs as [|x xs IH]; simpl.
  - intros H. inversion H.
  - destruct (f x) as [lx|] eqn:Ex; [|intros H; inversion H].
    rewrite elem_of_app. intros [H|H].
    + exists x, lx. split; [left|]; auto.
    + destruct (IH H) as (x' & lx' & H1 & H2 & H3).
      exists x', lx'. split; [right|]; auto.
Qed.

Lemma traverse_Forall2 {A B} (f : A -> result B) xs ys :
  traverse f xs = Ok ys -> Forall2 (fun x y => f x = Ok y) xs ys.
Proof.
  revert ys. induction xs as [|x xs IH]; intros ys; simpl.
  - intros [= <-]. constructor.
  - destruct (f x) as [y|] eqn:Ex; [|discriminate].
    destruct (traverse f xs) as [ys'|]; [|discriminate].
    intros [= <-]. constructor; [exact Ex | apply IH; reflexivity].
Qed.

Lemma call_of_transaction_fields self tx c :
  call_of_transaction self tx = Ok c ->
  block_number c = tx_block_number tx /\
  contract_address c = tx_to tx /\
  caller_address c = tx_from tx /\
  transaction_hash c = tx_hash tx /\
  get_block_timestamp (ethereum_state_provider self) (tx_block_number tx)
    = Ok (block_timestamp c) /\
  decode_function_input (contract_abi self) (tx_data tx)
    = Ok (function_name c, function_args c).
Proof.
  unfold call_of_transaction.
  destruct (decode_function_input _ _) as [[name args]|]; [|discriminate].
  destruct (get_block_timestamp _ _); [|discriminate].
  intros [= <-]. simpl. auto 10.
Qed.

(** X7. With the web3 reader, every call a crawl registers, whatever ends
    the crawl, goes to a watched address, carries the timestamp of the block
    its transaction names, and holds what the decoder made of the payload of
    a transaction of a block of the range. *)
Theorem web3_crawl_registers_watched_calls self w3 a b fl st w r st' w' :
  ethereum_state_provider self = Web3StateProvider w3 ->
  crawl self a b fl (st, w) = (r, (st', w')) ->
  exists cs,
    calls (state st') = calls (state st) ++ map asdict cs /\
    Forall (fun c =>
      contract_address c ∈ contract_addresses self /\
      (exists blk, eth_get_block w3 (block_number c) = Ok blk /\
                   block_timestamp c = timestamp blk) /\
      (exists bn blk tx, a <= bn <= b /\ eth_get_block w3 bn = Ok blk /\
                         tx ∈ transactions blk /\
                         call_of_transaction self tx = Ok c)) cs.
Proof.
  intros Hp Hrun.
  apply crawl_inv in Hrun as (txs & cs & Hpre & Hcs & Hst).
  exists cs. split; [rewrite Hst; reflexivity|].
  apply traverse_Forall2 in Hcs.
  assert (Htxs : Forall (fun tx => tx ∈ visited self a b) txs).
  { apply Forall_forall. intros tx Htx.
    destruct Hpre as [k ->]. apply elem_of_app. left. exact Htx. }
  clear Hpre Hst.
  induction Hcs as [|tx c txs cs Hc Hrest IH]; [constructor|].
  apply Forall_cons in Htxs as [Htx Htxs].
  constructor; [|apply IH, Htxs].
  pose proof (call_of_transaction_fields _ _ _ Hc)
    as (Hbn & Hto & _ & _ & Hts & _).
  apply elem_of_concat_until_raise in Htx as ([bn addr] & l & Hpair & Hl & Hin).
  apply elem_of_scan_pairs in Hpair as [Hrange Haddr].
  unfold read_pair in Hl. rewrite Hp in Hl, Hts. simpl in Hl, Hts.
  destruct (eth_get_block w3 bn) as [blk|] eqn:Eb; [|discriminate].
  injection Hl as <-. apply list_elem_of_In, filter_In in Hin as [Hin Hdest].
  apply bool_decide_eq_true in Hdest.
  split; [rewrite Hto, Hdest; exact Haddr|]. split.
  - destruct (eth_get_block w3 (tx_block_number tx)) as [blk'|] eqn:Eb';
      [|discriminate].
    injection Hts as Hts. exists blk'. rewrite Hbn. auto.
  - exists bn, blk, tx. repeat split; try lia; try assumption.
    apply list_elem_of_In, Hin.
Qed.

Lemma visit_order_block_numbers self a b txs tx :
  well_formed_reader (ethereum_state_provider self) ->
  visit_order self a b = Ok txs ->
  tx ∈ txs ->
  a <= tx_block_number tx <= b.
Proof.
  intros Hwf Hv Htx. unfold visit_order in Hv.
  apply (elem_of_concat_traverse _ _ _ _ Hv) in Htx
    as ([bn addr] & l & Hpair & Hl & Hin).
  apply elem_of_scan_pairs in Hpair as [Hrange _].
  unfold read_pair in Hl. simpl in Hl.
  rewrite (Hwf addr bn l tx Hl Hin). exact Hrange.
Qed.

(** X8. With a reader that answers each read with transactions of the block
    asked for, after a crawl of [a..b] that registered something the cursor
    lies in [a..b] and no block after the cursor up to [b] holds a
    transaction for a watched address: crawling on from
    [get_last_crawled_block() + 1] skips nothing and registers nothing
    twice. *)
Theorem cursor_is_resumption_point self a b fl txs cs st w :
  well_formed_reader (ethereum_state_provider self) ->
  faults w = [] ->
  visit_order self a b = Ok txs ->
  calls_of self txs = Ok cs ->
  txs <> [] ->
  exists st' w',
    crawl self a b fl (st, w) = (Ok tt, (st', w')) /\
    a <= get_last_crawled_block st' <= b /\
    visit_order self (get_last_crawled_block st' + 1) b = Ok [] /\
    forall fl',
      state (fst (snd (crawl self (get_last_crawled_block st' + 1) b fl' (st', w'))))
      = state st'.
Proof.
  intros Hwf Hf Hv Hcs Hne.
  destruct (crawl_no_faults dump decode_function_input self a b fl txs cs st w
              Hf Hv Hcs) as (n & w' & Hrun & Hf' & _).
  exists (with_state st (push_calls (state st) cs) n), w'.
  split; [exact Hrun|].
  destruct (exists_last Hne) as (txs0 & txl & ->).
  assert (Hcur : get_last_crawled_block (with_state st (push_calls (state st) cs) n)
                 = tx_block_number txl).
  { unfold get_last_crawled_block. simpl.
    rewrite (calls_of_block_numbers _ _ _ _ Hcs), map_app. simpl.
    apply last_last. }
  rewrite Hcur.
  assert (Hrange : a <= tx_block_number txl <= b).
  { apply (visit_order_block_numbers self a b (txs0 ++ [txl])); [assumption..|].
    apply elem_of_app. right. apply list_elem_of_singleton. reflexivity. }
  split; [exact Hrange|].
  destruct (visit_order_split self a (tx_block_number txl) b _
              ltac:(lia) ltac:(lia) Hv) as (t1 & t2 & Hv1 & Hv2 & Happ).
  assert (Ht2 : t2 = []).
  { destruct t2 as [|y t2'] using rev_ind; [reflexivity|].
    rewrite app_assoc in Happ. apply app_inj_tail in Happ as [_ ->].
    assert (Hy : tx_block_number y + 1 <= tx_block_number y <= b).
    { apply (visit_order_block_numbers self _ b (t2' ++ [y])); [assumption..|].
      apply elem_of_app. right. apply list_elem_of_singleton. reflexivity. }
    lia. }
  subst t2. split; [exact Hv2|].
  intros fl'. rewrite (crawl_scan dump decode_function_input _ _ _ _ _ Hv2).
  unfold bind. simpl. destruct fl'; [|reflexivity].
  rewrite flush_ok by apply no_faults_next, Hf'. reflexivity.
Qed.

End Scanning.

(** ** The further properties on the sample chain *)

Lemma auto_flush_period_witness :
  let s' := after_register_calls sample_dump (repeat sample_call 5)
              (sample_store 2, sample_world) in
  faults sample_world = [] /\
  0 <= cache_size (sample_store 2) < batch_size (sample_store 2) /\
  flushes_between sample_world (snd s') = 2 /\
  cache_size (fst s') = 1.
Proof.
  intros s'.
  assert (H1 : faults sample_world = []) by reflexivity.
  assert (H2 : 0 <= cache_size (sample_store 2) < batch_size (sample_store 2))
    by (simpl; lia).
  destruct (auto_flush_period sample_dump (repeat sample_call 5)
              (sample_store 2) sample_world H1 H2) as (H3 & H4 & _).
  split; [exact H1|]. split; [exact H2|]. split; [exact H3 | exact H4].
Defined.

Lemma unflushed_calls_below_batch_size_witness :
  let s' := after_register_calls sample_dump (repeat sample_call 5)
              (sample_store 2, sample_world_created) in
  faults sample_world_created = [] /\
  cache_size (sample_store 2) = 0 /\
  0 < batch_size (sample_store 2) /\
  files sample_world_created !! pickle_file (sample_store 2)
    = Some (sample_dump (state (sample_store 2))) /\
  exists flushed pending,
    repeat sample_call 5 = flushed ++ pending /\
    files (snd s') !! pickle_file (sample_store 2)
      = Some (sample_dump (push_calls (state (sample_store 2)) flushed)) /\
    state (fst s') = push_calls (state (sample_store 2)) (repeat sample_call 5) /\
    Z.of_nat (length pending) = cache_size (fst s') /\
    cache_size (fst s') < batch_size (sample_store 2).
Proof.
  intros s'.
  assert (H1 : faults sample_world_created = []) by reflexivity.
  assert (H2 : cache_size (sample_store 2) = 0) by reflexivity.
  assert (H3 : 0 < batch_size (sample_store 2)) by (simpl; lia).
  assert (H4 : files sample_world_created !! pickle_file (sample_store 2)
               = Some (sample_dump (state (sample_store 2))))
    by (vm_compute; reflexivity).
  split; [exact H1|]. split; [exact H2|]. split; [exact H3|]. split; [exact H4|].
  exact (unflushed_calls_below_batch_size sample_dump (repeat sample_call 5)
           (sample_store 2) sample_world_created H1 H2 H3 H4).
Defined.

Lemma no_auto_flush_at_or_above_batch_size_witness :
  let s' := after_register_calls sample_dump sample_calls
              (sample_store 0, sample_world) in
  batch_size (sample_store 0) <= cache_size (sample_store 0) /\
  snd s' = sample_world /\
  flushes_between sample_world (snd s') = 0 /\
  state (fst s') = push_calls (state (sample_store 0)) sample_calls /\
  cache_size (fst s') = cache_size (sample_store 0) + Z.of_nat (length sample_calls).
Proof.
  intros s'.
  assert (H : batch_size (sample_store 0) <= cache_size (sample_store 0))
    by (simpl; lia).
  split; [exact H|].
  exact (no_auto_flush_at_or_above_batch_size sample_dump sample_calls
           (sample_store 0) sample_world H).
Defined.

(** The second call of a batch of two meets a file system whose write
    fails. *)
Lemma failed_auto_flush_stops_batching_witness :
  let st := with_state (sample_store 2) sample_state 1 in
  let s' := snd (register_call sample_dump sample_call_late (st, failing_world)) in
  register_call sample_dump sample_call_late (st, failing_world)
    = (Raise StorageError, (fst s', snd s')) /\
  cache_size (fst s') = batch_size (fst s') /\
  forall cs w2,
    snd (after_register_calls sample_dump cs (fst s', w2)) = w2 /\
    state (fst (after_register_calls sample_dump cs (fst s', w2)))
      = push_calls (state (fst s')) cs.
Proof.
  intros st s'.
  assert (H : register_call sample_dump sample_call_late (st, failing_world)
              = (Raise StorageError, (fst s', snd s')))
    by (vm_compute; reflexivity).
  destruct (failed_auto_flush_stops_batching sample_dump sample_call_late st
              failing_world StorageError (fst s') (snd s') H)
    as (_ & _ & H1 & H2 & _).
  split; [exact H|]. split; [exact H1 | exact H2].
Defined.

Lemma crawl_nothing_to_scan_witness :
  (101 < 102 \/ contract_addresses sample_crawler = []) /\
  crawl sample_dump sample_decode sample_crawler 102 101 false
        (sample_store 2, sample_world) = (Ok tt, (sample_store 2, sample_world)).
Proof.
  assert (H : 101 < 102 \/ contract_addresses sample_crawler = []) by (left; lia).
  split; [exact H|].
  apply (crawl_nothing_to_scan sample_dump sample_decode sample_crawler 102 101
           false (sample_store 2, sample_world) H).
  reflexivity.
Defined.

(** Block 103 is not on the sample chain: the read raises after the three
    calls of blocks 100 to 102 were registered. *)
Lemma reader_error_aborts_crawl_witness :
  let pre := [(100, "0xAAA"%string); (101, "0xAAA"%string); (102, "0xAAA"%string)] in
  let txs := [tx_transfer; tx_unknown; tx_late] in
  faults sample_world = [] /\
  scan_pairs sample_crawler 100 103 = pre ++ (103, "0xAAA"%string) :: [] /\
  concat_traverse (read_pair sample_crawler) pre = Ok txs /\
  is_Some (match calls_of sample_decode_any sample_crawler txs with
           | Ok cs => Some cs | Raise _ => None end) /\
  read_pair sample_crawler (103, "0xAAA"%string) = Raise NotFoundError /\
  fst (crawl sample_dump sample_decode_any sample_crawler 100 103 true
             (sample_store 100, sample_world)) = Raise NotFoundError.
Proof.
  intros pre txs.
  assert (H1 : faults sample_world = []) by reflexivity.
  assert (H2 : scan_pairs sample_crawler 100 103
               = pre ++ (103, "0xAAA"%string) :: []) by reflexivity.
  assert (H3 : concat_traverse (read_pair sample_crawler) pre = Ok txs)
    by reflexivity.
  destruct (calls_of sample_decode_any sample_crawler txs) as [cs|e] eqn:H4;
    [|vm_compute in H4; discriminate].
  assert (H5 : read_pair sample_crawler (103, "0xAAA"%string) = Raise NotFoundError)
    by reflexivity.
  split; [exact H1|]. split; [exact H2|]. split; [exact H3|].
  split; [eexists; reflexivity|]. split; [exact H5|].
  destruct (reader_error_aborts_crawl sample_dump sample_decode_any sample_crawler
              100 103 true pre (103, "0xAAA"%string) [] txs cs NotFoundError
              (sample_store 100) sample_world H1 H2 H3 H4 H5)
    as (s1 & _ & _ & ->).
  reflexivity.
Defined.

Lemma web3_crawl_registers_watched_calls_witness :
  let r := crawl sample_dump sample_decode sample_crawler 100 102 true
                 (sample_store 100, sample_world) in
  ethereum_state_provider sample_crawler = Web3StateProvider sample_node /\
  r = (fst r, (fst (snd r), snd (snd r))) /\
  exists cs,
    calls (state (fst (snd r))) = calls (state (sample_store 100)) ++ map asdict cs /\
    Forall (fun c => contract_address c ∈ contract_addresses sample_crawler) cs.
Proof.
  intros r.
  assert (H1 : ethereum_state_provider sample_crawler = Web3StateProvider sample_node)
    by reflexivity.
  assert (H2 : r = (fst r, (fst (snd r), snd (snd r)))) by (vm_compute; reflexivity).
  split; [exact H1|]. split; [exact H2|].
  destruct (web3_crawl_registers_watched_calls sample_dump sample_decode
              sample_crawler sample_node 100 102 true (sample_store 100)
              sample_world (fst r) (fst (snd r)) (snd (snd r)) H1 H2)
    as (cs & Hcalls & Hall).
  exists cs. split; [exact Hcalls|].
  eapply Forall_impl; [exact Hall|]. intros c (Hc & _). exact Hc.
Defined.

Lemma sample_node_well_formed :
  well_formed_reader (Web3StateProvider sample_node).
Proof.
  intros addr bn txs tx Hread Hin.
  unfold Web3StateProvider, get_transactions_to_address in Hread.
  destruct (eth_get_block sample_node bn) as [blk|] eqn:Eb; [|discriminate].
  injection Hread as <-. apply list_elem_of_In, filter_In in Hin as [Hin _].
  unfold sample_node, eth_get_block in Eb.
  destruct (Z.eqb_spec bn 100) as [->|H100].
  { injection Eb as <-. simpl in Hin. destruct Hin as [<-|[<-|[]]]; reflexivity. }
  destruct (Z.eqb_spec bn 101) as [->|H101].
  { injection Eb as <-. destruct Hin. }
  destruct (Z.eqb_spec bn 102) as [->|H102]; [|discriminate].
  injection Eb as <-. simpl in Hin. destruct Hin as [<-|[<-|[]]]; reflexivity.
Defined.

Lemma cursor_is_resumption_point_witness :
  well_formed_reader (ethereum_state_provider sample_crawler) /\
  faults sample_world = [] /\
  visit_order sample_crawler 100 101 = Ok [tx_transfer] /\
  calls_of sample_decode sample_crawler [tx_transfer] = Ok [sample_call] /\
  [tx_transfer] <> [] /\
  exists st' w',
    crawl sample_dump sample_decode sample_crawler 100 101 true
          (sample_store 100, sample_world) = (Ok tt, (st', w')) /\
    100 <= get_last_crawled_block st' <= 101 /\
    visit_order sample_crawler (get_last_crawled_block st' + 1) 101 = Ok [].
Proof.
  assert (H1 : well_formed_reader (ethereum_state_provider sample_crawler))
    by exact sample_node_well_formed.
  assert (H2 : faults sample_world = []) by reflexivity.
  assert (H3 : visit_order sample_crawler 100 101 = Ok [tx_transfer]) by reflexivity.
  assert (H4 : calls_of sample_decode sample_crawler [tx_transfer] = Ok [sample_call])
    by reflexivity.
  assert (H5 : [tx_transfer] <> []) by discriminate.
  split; [exact H1|]. split; [exact H2|]. split; [exact H3|].
  split; [exact H4|]. split; [exact H5|].
  destruct (cursor_is_resumption_point sample_dump sample_decode sample_crawler
              100 101 true [tx_transfer] [sample_call] (sample_store 100)
              sample_world H1 H2 H3 H4 H5) as (st' & w' & Ha & Hb & Hc & _).
  exists st', w'. auto.
Defined.

(** * Properties of [web3_util.py] *)

Section web3_util_properties.

Variable node : Type.

(** X9. [read_keys_from_env] tests the address twice and the private key
    never: when [CENTIPEDE_ETHEREUM_ADDRESS] is set to an address that
    converts, it returns the checksum address with whatever the environment
    holds for [CENTIPEDE_ETHEREUM_ADDRESS_PRIVATE_KEY], [None] when the
    variable is not set, instead of raising. *)
Theorem read_keys_from_env_private_key_unchecked (web3 : Web3Client node)
    environ address checksum :
  environ !! "CENTIPEDE_ETHEREUM_ADDRESS"%string = Some address ->
  toChecksumAddress node web3 address = Return checksum ->
  read_keys_from_env node web3 environ =
    Return (checksum, environ !! "CENTIPEDE_ETHEREUM_ADDRESS_PRIVATE_KEY"%string) /\
  (environ !! "CENTIPEDE_ETHEREUM_ADDRESS_PRIVATE_KEY"%string = None ->
   read_keys_from_env node web3 environ = Return (checksum, None)).
Proof.
  intros Haddr Hsum. unfold read_keys_from_env. rewrite Haddr, Hsum.
  split; [reflexivity|]. intros ->. reflexivity.
Qed.

(** X10. Called without [constructor_arguments], [deploy_contract] never
    deploys: once the contract class is made, unpacking the default [None]
    raises [TypeError] before any request goes to the node, whose state is
    returned as it was. *)
Theorem deploy_contract_without_arguments (web3 : Web3Client node)
    bytecode abi deployer key constructor n :
  eth_contract node web3 abi bytecode = Return constructor ->
  exists message,
    deploy_contract node web3 bytecode abi deployer key None n
    = (Throw (TypeError message), n).
Proof.
  intros Hc. unfold deploy_contract. rewrite Hc. eexists. reflexivity.
Qed.

End web3_util_properties.

(** * Properties of [generator.py] *)

Lemma getitem_missing {V} (d : list (string * V)) key :
  key ∉ map fst d -> getitem d key = Throw (KeyError key).
Proof.
  induction d as [|[k v] d IH]; simpl; [reflexivity|].
  intros Hnot. destruct (String.eqb_spec k key) as [->|Hne].
  - exfalso. apply Hnot. left.
  - apply IH. intros Hin. apply Hnot. right. exact Hin.
Qed.

Lemma getitem_found {V} (d : list (string * V)) key v :
  getitem d key = Return v -> (key, v) ∈ d.
Proof.
  induction d as [|[k w] d IH]; simpl; [discriminate|].
  destruct (String.eqb_spec k key) as [->|Hne].
  - intros [= ->]. left.
  - intros H. right. apply IH, H.
Qed.

(** X11. Every EVM type the generator can annotate is a type
    [cast_to_python_type] converts, and the two agree: [int] for the types
    annotated [int], [bytes] for [bytes], [str] for [str], and
    [Web3.toChecksumAddress] for the address annotation. *)
Theorem annotated_types_are_castable evm_type param_type :
  getitem EVM_PYTHON_TYPE_MAPPINGS evm_type = Return param_type ->
  (cast_to_python_type evm_type = Return cast_int /\
   param_type = make_annotation ["int"%string]) \/
  (cast_to_python_type evm_type = Return cast_bytes /\
   param_type = make_annotation ["bytes"%string]) \/
  (cast_to_python_type evm_type = Return cast_str /\
   param_type = make_annotation ["str"%string]) \/
  (cast_to_python_type evm_type = Return cast_toChecksumAddress /\
   param_type = make_annotation ["Address"%string; "ChecksumAddress"%string]).
Proof.
  intros H. apply getitem_found in H.
  apply list_elem_of_In in H. unfold EVM_PYTHON_TYPE_MAPPINGS in H.
  destruct H as [H|[H|[H|[H|[H|[H|[]]]]]]]; injection H as <- <-.
  - left. split; reflexivity.
  - left. split; reflexivity.
  - left. split; reflexivity.
  - right. left. split; reflexivity.
  - right. right. left. split; reflexivity.
  - right. right. right. split; reflexivity.
Qed.

Section generator_properties.

Variable statement : Type.
Variable parse_statement : string -> outcome statement.

#[local] Abbreviation generate_contract_function :=
  (generate_contract_function statement parse_statement).
#[local] Abbreviation generate_functions :=
  (generate_functions statement parse_statement).
#[local] Abbreviation generate_contract_class :=
  (generate_contract_class statement parse_statement).

Lemma generated_name_cons p inputs k j given g :
  input_name p = Some given ->
  generated_name (p :: inputs) k (S j) g =
  generated_name inputs (if String.eqb given "" then S k else k) j g.
Proof.
  intros Hp. unfold generated_name. simpl take. simpl List.filter.
  unfold unnamed at 1. rewrite Hp.
  destruct (String.eqb g ""); [|reflexivity].
  destruct (String.eqb given ""); simpl; do 2 f_equal; lia.
Qed.

(** What the loop over the inputs returns when it returns. *)
Lemma generate_params_ok inputs k names params names' params' :
  generate_params inputs k names params = Return (names', params') ->
  exists new anns,
    names' = names ++ new /\
    params' = params ++ zip_with (fun n a => Param (Name n) (Some a)) new anns /\
    length new = length inputs /\
    length anns = length inputs /\
    (forall i p, inputs !! i = Some p ->
       exists given t ann,
         input_name p = Some given /\
         input_type p = Some t /\
         getitem EVM_PYTHON_TYPE_MAPPINGS t = Return ann /\
         new !! i = Some (generated_name inputs k i given) /\
         anns !! i = Some ann).
Proof.
  revert k names params.
  induction inputs as [|p inputs IH]; intros k names params; cbn [generate_params].
  - intros [= <- <-]. exists [], []. rewrite !app_nil_r. repeat split.
    intros i q H. inversion H.
  - destruct (input_name p) as [given|] eqn:En; [|discriminate].
    destruct (input_type p) as [t|] eqn:Et; [|discriminate].
    destruct (getitem EVM_PYTHON_TYPE_MAPPINGS t) as [ann|] eqn:Eg; [|discriminate].
    intros H. apply IH in H as (new & anns & -> & -> & Hlen & Hlen' & Hall).
    eexists (_ :: new), (ann :: anns).
    split; [rewrite <- app_assoc; reflexivity|].
    split; [rewrite <- app_assoc; reflexivity|].
    split; [simpl; f_equal; exact Hlen|].
    split; [simpl; f_equal; exact Hlen'|].
    intros i q Hq. destruct i as [|i].
    + injection Hq as <-. exists given, t, ann.
      split; [exact En|]. split; [exact Et|]. split; [exact Eg|].
      split; [|reflexivity]. simpl. f_equal.
      unfold generated_name. simpl. rewrite Nat.add_0_r. reflexivity.
    + simpl in Hq. destruct (Hall i q Hq) as (g & t' & ann' & H1 & H2 & H3 & H4 & H5).
      exists g, t', ann'. split; [exact H1|]. split; [exact H2|].
      split; [exact H3|]. split; [|exact H5].
      simpl. rewrite H4. f_equal. symmetry. apply generated_name_cons, En.
Qed.

(** X12. When [generate_contract_function] returns, the generated method
    is named after the ABI entry, its parameters are [self] followed by one
    parameter per input in order, each input keeping its name when it has
    one and being called [arg1], [arg2], ... in order of appearance when it
    has none, and the body is the call of the contract function with those
    same names in the same order. *)
Theorem generate_contract_function_names func_object fd :
  generate_contract_function func_object = Return fd ->
  exists inputs name names call,
    entry_inputs func_object = Some inputs /\
    entry_name func_object = Some name /\
    def_name fd = Name name /\
    map param_name (def_params fd) = Name "self" :: map Name names /\
    length names = length inputs /\
    parse_statement (proxy_call_code name names) = Return call /\
    def_body fd = [call] /\
    (forall i p, inputs !! i = Some p ->
       exists given,
         input_name p = Some given /\
         names !! i = Some (generated_name inputs 1 i given)).
Proof.
  unfold generate_contract_function.
  destruct (entry_inputs func_object) as [inputs|]; [|discriminate].
  destruct (generate_params inputs 1 [] [Param (Name "self") None])
    as [[names params]|] eqn:Ep; [|discriminate].
  destruct (entry_name func_object) as [name|]; [|discriminate].
  unfold cst_Name. destruct (String.eqb name ""); [discriminate|].
  destruct (parse_statement (proxy_call_code name names)) as [call|] eqn:Ec;
    [|discriminate].
  intros [= <-].
  apply generate_params_ok in Ep as (new & anns & -> & -> & Hlen & Hlen' & Hall).
  exists inputs, name, new, call. simpl.
  split; [reflexivity|]. split; [reflexivity|]. split; [reflexivity|].
  split.
  { f_equal. clear - Hlen Hlen'. rewrite <- Hlen' in Hlen. clear Hlen'.
    revert anns Hlen. induction new as [|n new IH]; intros [|a anns] Hlen;
      try discriminate; [reflexivity|].
    simpl. f_equal. apply IH. simpl in Hlen. lia. }
  split; [exact Hlen|]. split; [exact Ec|]. split; [reflexivity|].
  intros i p Hp. destruct (Hall i p Hp) as (given & t & ann & H1 & _ & _ & H4 & _).
  exists given. auto.
Qed.

Lemma generate_params_app pre rest k names params names1 params1 :
  generate_params pre k names params = Return (names1, params1) ->
  generate_params (pre ++ rest) k names params =
  generate_params rest (k + length (List.filter unnamed pre)) names1 params1.
Proof.
  revert k names params.
  induction pre as [|p pre IH]; intros k names params;
    cbn [generate_params app List.filter].
  - intros [= <- <-]. simpl. rewrite Nat.add_0_r. reflexivity.
  - unfold unnamed at 1.
    destruct (input_name p) as [given|]; [|discriminate].
    destruct (input_type p) as [t|]; [|discriminate].
    destruct (getitem EVM_PYTHON_TYPE_MAPPINGS t) as [ann|]; [|discriminate].
    intros H. rewrite (IH _ _ _ H).
    destruct (String.eqb given ""); simpl; f_equal; lia.
Qed.

(** X13. An input whose type is not one of the six keys of
    [EVM_PYTHON_TYPE_MAPPINGS] ([bool], [uint128], [bytes32], an array, ...)
    makes [generate_contract_function] raise [KeyError] with that type, when
    the inputs before it went through. *)
Theorem generate_contract_function_unmapped_type func_object pre p post
    names params given evm_type :
  entry_inputs func_object = Some (pre ++ p :: post) ->
  generate_params pre 1 [] [Param (Name "self") None] = Return (names, params) ->
  input_name p = Some given ->
  input_type p = Some evm_type ->
  evm_type ∉ ["uint256"; "uint8"; "uint"; "bytes4"; "string"; "address"]%string ->
  generate_contract_function func_object = Throw (KeyError evm_type).
Proof.
  intros Hin Hpre Hname Htype Hnot.
  unfold generate_contract_function. rewrite Hin.
  rewrite (generate_params_app _ _ _ _ _ _ _ Hpre). cbn [generate_params].
  rewrite Hname, Htype.
  rewrite (getitem_missing EVM_PYTHON_TYPE_MAPPINGS evm_type Hnot). reflexivity.
Qed.

(** X14. When [generate_contract_class] returns, the class is called
    [Contract] and holds [__init__] followed by exactly one method for each
    ABI entry of type [function], in the order of the ABI; entries of any
    other type produce nothing, and every entry carries a [type] key. *)
Theorem generate_contract_class_methods abi cd :
  generate_contract_class abi = Return cd ->
  class_name cd = Name "Contract" /\
  exists init methods,
    class_body cd = init :: methods /\
    def_name init = Name "__init__" /\
    Forall2 (fun entry method => generate_contract_function entry = Return method)
            (List.filter is_function abi) methods /\
    Forall (fun entry => exists t, entry_type entry = Some t) abi.
Proof.
  unfold generate_contract_class.
  destruct (parse_statements _ _ _) as [body|]; [|discriminate].
  destruct (generate_functions abi) as [fs|] eqn:Ef; [|discriminate].
  intros [= <-]. simpl. split; [reflexivity|].
  eexists _, fs. split; [reflexivity|]. split; [reflexivity|].
  revert fs Ef. induction abi as [|entry abi IH]; intros fs; simpl.
  - intros [= <-]. split; constructor.
  - unfold is_function at 1.
    destruct (entry_type entry) as [t|] eqn:Et; [|discriminate].
    destruct (String.eqb t "function").
    + destruct (generate_contract_function entry) as [f|] eqn:Eg; [|discriminate].
      destruct (generate_functions abi) as [fs'|]; [|discriminate].
      intros [= <-]. destruct (IH fs' eq_refl) as [H1 H2].
      split; constructor; eauto.
    + intros H. destruct (IH fs H) as [H1 H2]. split; [exact H1|].
      constructor; eauto.
Qed.

Lemma str_of_nat_inj n m : str_of_nat n = str_of_nat m -> n = m.
Proof.
  unfold str_of_nat. intros H.
  apply Unsigned.to_uint_inj.
  pose proof (NilEmpty.usu (Nat.to_uint n)) as Hn.
  pose proof (NilEmpty.usu (Nat.to_uint m)) as Hm.
  rewrite H in Hn. rewrite Hn in Hm. injection Hm as Hm. exact Hm.
Qed.

Lemma unnamed_before_lt (inputs : list abi_input) i j p :
  (i < j)%nat ->
  inputs !! i = Some p ->
  unnamed p = true ->
  (length (List.filter unnamed (take i inputs))
   < length (List.filter unnamed (take j inputs)))%nat.
Proof.
  intros Hij Hp Hun.
  replace j with (S i + (j - S i))%nat by lia.
  rewrite <- take_take_drop.
  rewrite (take_S_r _ _ _ Hp), !List.filter_app, !length_app. simpl.
  rewrite Hun. simpl. lia.
Qed.

(** X15. When no two inputs share a given name, and no given name is
    [self] or [arg] followed by a number, the parameters of the method that
    [generate_contract_function] returns have pairwise distinct names. *)
Theorem generated_parameter_names_distinct func_object fd inputs :
  generate_contract_function func_object = Return fd ->
  entry_inputs func_object = Some inputs ->
  (forall i j p q given,
     inputs !! i = Some p -> inputs !! j = Some q ->
     input_name p = Some given -> input_name q = Some given ->
     given <> ""%string -> i = j) ->
  (forall p given,
     p ∈ inputs -> input_name p = Some given ->
     given <> "self"%string /\
     forall k, given <> ("arg" ++ str_of_nat k)%string) ->
  NoDup (map param_name (def_params fd)).
Proof.
  unfold generate_contract_function. intros Hgen Hin Hdistinct Hplain.
  rewrite Hin in Hgen.
  destruct (generate_params inputs 1 [] [Param (Name "self") None])
    as [[names params]|] eqn:Ep; [|discriminate].
  destruct (entry_name func_object) as [name|]; [|discriminate].
  destruct (cst_Name name); [|discriminate].
  destruct (parse_statement (proxy_call_code name names)); [|discriminate].
  injection Hgen as <-. simpl.
  apply generate_params_ok in Ep as (new & anns & -> & -> & Hlen & Hlen' & Hall).
  assert (Hnew : forall i n, new !! i = Some n ->
            exists p given, inputs !! i = Some p /\ input_name p = Some given /\
                            n = generated_name inputs 1 i given).
  { intros i n Hn.
    destruct (lookup_lt_is_Some_2 inputs i) as [p Hp].
    { rewrite <- Hlen. eapply lookup_lt_Some, Hn. }
    destruct (Hall i p Hp) as (given & _ & _ & Hg & _ & _ & Hn' & _).
    exists p, given. split; [exact Hp|]. split; [exact Hg|]. congruence. }
  assert (Hmap : map param_name
            ([Param (Name "self") None]
               ++ zip_with (fun n a => Param (Name n) (Some a)) new anns)
            = map Name ("self"%string :: new)).
  { simpl. f_equal. clear - Hlen Hlen'. rewrite <- Hlen' in Hlen. clear Hlen'.
    revert anns Hlen. induction new as [|n new IH]; intros [|a anns] Hlen;
      try discriminate; [reflexivity|].
    simpl. f_equal. apply IH. simpl in Hlen. lia. }
  rewrite Hmap. apply NoDup_fmap_2; [intros x y [= ->]; reflexivity|].
  apply NoDup_cons. split.
  - intros Hself. apply list_elem_of_lookup in Hself as [i Hi].
    destruct (Hnew i _ Hi) as (p & given & Hp & Hg & Heq).
    destruct (Hplain p given (list_elem_of_lookup_2 _ _ _ Hp) Hg) as [Hns _].
    unfold generated_name in Heq.
    destruct (String.eqb given ""); [discriminate | congruence].
  - apply NoDup_alt. intros i j n Hi Hj.
    destruct (Hnew i n Hi) as (p & gp & Hp & Hgp & Hnp).
    destruct (Hnew j n Hj) as (q & gq & Hq & Hgq & Hnq).
    destruct (Hplain p gp (list_elem_of_lookup_2 _ _ _ Hp) Hgp) as [_ Hargp].
    destruct (Hplain q gq (list_elem_of_lookup_2 _ _ _ Hq) Hgq) as [_ Hargq].
    unfold generated_name in Hnp, Hnq.
    destruct (String.eqb_spec gp "") as [->|Hpne];
      destruct (String.eqb_spec gq "") as [->|Hqne].
    + rewrite Hnp in Hnq. injection Hnq as Hnq. apply str_of_nat_inj in Hnq.
      assert (Hup : unnamed p = true) by (unfold unnamed; rewrite Hgp; reflexivity).
      assert (Huq : unnamed q = true) by (unfold unnamed; rewrite Hgq; reflexivity).
      destruct (Nat.lt_trichotomy i j) as [Hlt|[Heq|Hgt]]; [|exact Heq|].
      * pose proof (unnamed_before_lt inputs i j p Hlt Hp Hup). lia.
      * pose proof (unnamed_before_lt inputs j i q Hgt Hq Huq). lia.
    + exfalso. rewrite Hnp in Hnq. exact (Hargq _ (eq_sym Hnq)).
    + exfalso. rewrite Hnq in Hnp. exact (Hargp _ (eq_sym Hnp)).
    + rewrite Hnp in Hnq. subst gq. eapply Hdistinct; eauto.
Qed.

End generator_properties.

(** ** The properties of [web3_util.py] and [generator.py] on the samples *)

Lemma read_keys_from_env_private_key_unchecked_witness :
  sample_environ !! "CENTIPEDE_ETHEREUM_ADDRESS"%string = Some "0xAAA"%string /\
  toChecksumAddress nat sample_client "0xAAA" = Return "0xAAA"%string /\
  sample_environ !! "CENTIPEDE_ETHEREUM_ADDRESS_PRIVATE_KEY"%string = None /\
  read_keys_from_env nat sample_client sample_environ = Return ("0xAAA"%string, None).
Proof.
  assert (H1 : sample_environ !! "CENTIPEDE_ETHEREUM_ADDRESS"%string
               = Some "0xAAA"%string) by (vm_compute; reflexivity).
  assert (H2 : toChecksumAddress nat sample_client "0xAAA" = Return "0xAAA"%string)
    by reflexivity.
  assert (H3 : sample_environ !! "CENTIPEDE_ETHEREUM_ADDRESS_PRIVATE_KEY"%string
               = None) by (vm_compute; reflexivity).
  split; [exact H1|]. split; [exact H2|]. split; [exact H3|].
  exact (proj2 (read_keys_from_env_private_key_unchecked nat sample_client
                  sample_environ "0xAAA" "0xAAA" H1 H2) H3).
Defined.

Lemma deploy_contract_without_arguments_witness :
  eth_contract nat sample_client [] "0x6080"
    = Return (fun _ => Return (fun params n => (Return params, S n))) /\
  exists message,
    deploy_contract nat sample_client "0x6080" [] "0xAAA" "key" None 0%nat
    = (Throw (TypeError message), 0%nat).
Proof.
  assert (H : eth_contract nat sample_client [] "0x6080"
              = Return (fun _ => Return (fun params n => (Return params, S n))))
    by reflexivity.
  split; [exact H|].
  exact (deploy_contract_without_arguments nat sample_client "0x6080" []
           "0xAAA" "key" _ 0%nat H).
Defined.

Lemma annotated_types_are_castable_witness :
  getitem EVM_PYTHON_TYPE_MAPPINGS "address"
    = Return (make_annotation ["Address"%string; "ChecksumAddress"%string]) /\
  cast_to_python_type "address" = Return cast_toChecksumAddress.
Proof.
  assert (H : getitem EVM_PYTHON_TYPE_MAPPINGS "address"
              = Return (make_annotation ["Address"%string; "ChecksumAddress"%string]))
    by reflexivity.
  split; [exact H|].
  destruct (annotated_types_are_castable "address" _ H)
    as [[Hc _]|[[Hc _]|[[Hc _]|[Hc _]]]]; try discriminate Hc. exact Hc.
Defined.

Lemma generate_contract_function_names_witness :
  generate_contract_function string sample_parse sample_function
    = Return (FunctionDef (Name "transfer")
        [ Param (Name "self") None;
          Param (Name "to")
                (Some (make_annotation ["Address"%string; "ChecksumAddress"%string]));
          Param (Name "arg1") (Some (make_annotation ["int"%string]));
          Param (Name "arg2") (Some (make_annotation ["int"%string])) ]
        ["return self.contract.functions.transfer(to,arg1,arg2).call()"%string]
        (Some (Annotation (Name "Any")))) /\
  exists names,
    map param_name
      (def_params
         (FunctionDef (Name "transfer")
            [ Param (Name "self") None;
              Param (Name "to")
                    (Some (make_annotation ["Address"%string; "ChecksumAddress"%string]));
              Param (Name "arg1") (Some (make_annotation ["int"%string]));
              Param (Name "arg2") (Some (make_annotation ["int"%string])) ]
            ["return self.contract.functions.transfer(to,arg1,arg2).call()"%string]
            (Some (Annotation (Name "Any")))))
    = Name "self" :: map Name names /\
    sample_parse (proxy_call_code "transfer" names)
    = Return "return self.contract.functions.transfer(to,arg1,arg2).call()"%string.
Proof.
  match goal with |- ?H /\ _ => assert (Hgen : H) by reflexivity end.
  split; [exact Hgen|].
  destruct (generate_contract_function_names string sample_parse sample_function
              _ Hgen)
    as (inputs & name & names & call & Hi & Hn & _ & Hparams & _ & Hparse & Hbody & _).
  injection Hn as <-. injection Hbody as <-.
  exists names. split; [exact Hparams | exact Hparse].
Defined.

Lemma generate_contract_function_unmapped_type_witness :
  entry_inputs sample_pause = Some ([] ++ sample_flag_input :: []) /\
  generate_params [] 1 [] [Param (Name "self") None]
    = Return ([], [Param (Name "self") None]) /\
  input_name sample_flag_input = Some "flag"%string /\
  input_type sample_flag_input = Some "bool"%string /\
  ("bool"%string ∉ ["uint256"; "uint8"; "uint"; "bytes4"; "string"; "address"]%string) /\
  cast_to_python_type "bool" = Return cast_bool /\
  generate_contract_function string sample_parse sample_pause
    = Throw (KeyError "bool").
Proof.
  assert (H1 : entry_inputs sample_pause = Some ([] ++ sample_flag_input :: []))
    by reflexivity.
  assert (H2 : generate_params [] 1 [] [Param (Name "self") None]
               = Return ([], [Param (Name "self") None])) by reflexivity.
  assert (H3 : input_name sample_flag_input = Some "flag"%string) by reflexivity.
  assert (H4 : input_type sample_flag_input = Some "bool"%string) by reflexivity.
  assert (H5 : "bool"%string ∉ ["uint256"; "uint8"; "uint"; "bytes4"; "string"; "address"]%string).
  { intros H. apply list_elem_of_In in H. simpl in H.
    destruct H as [H|[H|[H|[H|[H|[H|[]]]]]]]; discriminate H. }
  split; [exact H1|]. split; [exact H2|]. split; [exact H3|]. split; [exact H4|].
  split; [exact H5|]. split; [reflexivity|].
  exact (generate_contract_function_unmapped_type string sample_parse sample_pause
           [] sample_flag_input [] [] _ "flag" "bool" H1 H2 H3 H4 H5).
Defined.

Lemma generate_contract_class_methods_witness :
  exists cd,
    generate_contract_class string sample_parse [sample_event; sample_function]
      = Return cd /\
    exists init methods,
      class_body cd = init :: methods /\
      Forall2 (fun entry method =>
                 generate_contract_function string sample_parse entry = Return method)
              [sample_function] methods.
Proof.
  assert (H : exists cd,
            generate_contract_class string sample_parse
              [sample_event; sample_function] = Return cd)
    by (eexists; reflexivity).
  destruct H as [cd H]. exists cd. split; [exact H|].
  destruct (generate_contract_class_methods string sample_parse
              [sample_event; sample_function] cd H)
    as (_ & init & methods & Hbody & _ & Hall & _).
  exists init, methods. split; [exact Hbody | exact Hall].
Defined.

Lemma generated_parameter_names_distinct_witness :
  let fd := FunctionDef (Name "transfer")
      [ Param (Name "self") None;
        Param (Name "to")
              (Some (make_annotation ["Address"%string; "ChecksumAddress"%string]));
        Param (Name "arg1") (Some (make_annotation ["int"%string]));
        Param (Name "arg2") (Some (make_annotation ["int"%string])) ]
      ["return self.contract.functions.transfer(to,arg1,arg2).call()"%string]
      (Some (Annotation (Name "Any"))) in
  generate_contract_function string sample_parse sample_function = Return fd /\
  entry_inputs sample_function = Some sample_inputs /\
  NoDup (map param_name (def_params fd)).
Proof.
  intros fd.
  assert (H1 : generate_contract_function string sample_parse sample_function
               = Return fd) by reflexivity.
  assert (H2 : entry_inputs sample_function = Some sample_inputs) by reflexivity.
  split; [exact H1|]. split; [exact H2|].
  apply (generated_parameter_names_distinct string sample_parse sample_function
           fd sample_inputs H1 H2).
  - intros i j p q given Hp Hq Hgp Hgq Hne.
    destruct i as [|[|[|i]]]; simpl in Hp; try discriminate Hp;
      injection Hp as <-; simpl in Hgp; injection Hgp as <-;
      try (exfalso; apply Hne; reflexivity);
      destruct j as [|[|[|j]]]; simpl in Hq; try discriminate Hq;
      injection Hq as <-; simpl in Hgq; try discriminate Hgq; reflexivity.
  - intros p given Hp Hg. apply list_elem_of_In in Hp. simpl in Hp.
    destruct Hp as [<-|[<-|[<-|[]]]]; simpl in Hg; injection Hg as <-;
      split; try discriminate; intros k; discriminate.
Defined.

(** An input that is called [arg1] and an unnamed input after it get the
    same name. *)
Example generated_parameter_names_clash :
  exists fd,
    generate_contract_function string sample_parse
      {| entry_type := Some "function"%string;
         entry_name := Some "f"%string;
         entry_inputs := Some
           [ {| input_name := Some "arg1"%string; input_type := Some "uint"%string |};
             {| input_name := Some ""%string; input_type := Some "uint"%string |} ] |}
    = Return fd /\
    map param_name (def_params fd) = [Name "self"; Name "arg1"; Name "arg1"].
Proof. eexists. split; reflexivity. Qed.
